(** * Inventory application: the generic data-access layer

    A shallow embedding of [include/database.hpp] and [src/database.cpp]:
    the schema initialiser [Database::init] and the generic record mapper
    [Database::insert] / [Database::update] / [Database::remove], over an
    explicit model of the SQLite connection the class owns.

    Definitions:
    - [StdString]  : the [std::string] operations the mapper uses.
    - [StdMap]     : [std::map<std::string, V>] as a key-sorted association list.
    - [Sqlite]     : the part of the SQLite C API the class calls, as a
                     state monad over a connection, [std::cerr] and a
                     trace of the calls made.
    - [Database]   : the member functions themselves.
    - [SqlText]    : the statement shapes the documentation names, and a
                     small recogniser for them.
    - [MiniSqlite] : one concrete connection, used to run the code.
    - [Runs]       : the calls and messages of a run, as lists.
    - [Examples]   : records and field mappings of a caller.
    - [Lifetime]   : the constructor, the destructor, and [init] over
                     [std::cerr] as a stream, error texts as pointers.
    - [Names]      : plain names, simple texts, and what is read off a
                     trace of calls.

    Facts follow, then the properties of the mapper and of [init], each
    under the number of the claim it settles. *)

From Stdlib Require Import String Ascii List ZArith Bool Lia Sorted.
From Stdlib Require Floats.PrimFloat.
Import ListNotations.
Open Scope list_scope.
Open Scope string_scope.

(* ===================================================================== *)
(** ** std::string *)

Module StdString.

(** [s.pop_back()]: removes the last character.  Calling it on an empty
    string is undefined behaviour, rendered here as [None]. *)
Fixpoint pop_back (s : string) : option string :=
  match s with
  | EmptyString => None
  | String c rest =>
      match rest with
      | EmptyString => Some EmptyString
      | String _ _ => option_map (String c) (pop_back rest)
      end
  end.

(** The last character of a string, if any. *)
Fixpoint back (s : string) : option ascii :=
  match s with
  | EmptyString => None
  | String c rest =>
      match rest with
      | EmptyString => Some c
      | String _ _ => back rest
      end
  end.

(** Number of occurrences of a character. *)
Fixpoint count (c : ascii) (s : string) : nat :=
  match s with
  | EmptyString => 0
  | String d rest => (if Ascii.eqb c d then 1 else 0) + count c rest
  end.

(** [s.c_str()] read as a C string, which is how a [const char *] given
    with length [-1] is read: the characters before the first NUL. *)
Fixpoint c_str (s : string) : string :=
  match s with
  | EmptyString => EmptyString
  | String c rest =>
      if Ascii.eqb c Ascii.zero then EmptyString else String c (c_str rest)
  end.

End StdString.

(* ===================================================================== *)
(** ** std::map<std::string, V> *)

Module StdMap.

(** A [std::map] is traversed in increasing key order and holds each key
    once; the model is the list of its entries in traversal order. *)
Definition t (V : Type) : Type := list (string * V).

(** [std::less<std::string>]: lexicographic, characters compared as
    unsigned bytes. *)
Definition key_lt (a b : string) : Prop := String.compare a b = Lt.

Definition keys {V} (m : t V) : list string := map fst m.

(** The representation invariant: strictly increasing keys. *)
Definition ok {V} (m : t V) : Prop := StronglySorted key_lt (keys m).

(** [m.insert({k, v})] / [m.emplace(k, v)]: an existing key is kept. *)
Fixpoint emplace {V} (k : string) (v : V) (m : t V) : t V :=
  match m with
  | [] => [(k, v)]
  | (k', v') :: m' =>
      match String.compare k k' with
      | Lt => (k, v) :: m
      | Eq => m
      | Gt => (k', v') :: emplace k v m'
      end
  end.

(** Construction from an initializer list: entries are inserted left to
    right. *)
Definition of_list {V} (l : list (string * V)) : t V :=
  fold_left (fun m kv => emplace (fst kv) (snd kv) m) l [].

End StdMap.

(* ===================================================================== *)
(** ** The SQLite C API as the class uses it *)

Module Sqlite.

(** Result codes (sqlite3.h). *)
Definition SQLITE_OK : Z := 0.
Definition SQLITE_ERROR : Z := 1.
Definition SQLITE_CONSTRAINT : Z := 19.
Definition SQLITE_DONE : Z := 101.

(** The destructor argument of [sqlite3_bind_text]. *)
Inductive destructor := SQLITE_STATIC | SQLITE_TRANSIENT.

(** What a statement parameter can hold.  A parameter no bind call has
    set is NULL.  [SqlStaticText] is a text bound with [SQLITE_STATIC]:
    SQLite copies nothing and keeps the pointer, and reads the text from
    it when the statement is stepped.  The pointer the class passes is
    into the binding loop's local [value], which is gone by then, so the
    text read is not determined by the text extracted and the parameter
    carries none. *)
Inductive sqlite_value :=
| SqlNull
| SqlInteger (i : Z)
| SqlFloat (d : PrimFloat.float)
| SqlText (s : string)
| SqlStaticText.

(** What [sqlite3_bind_double] leaves in a parameter: SQLite stores a
    NaN as NULL. *)
Definition double_value (v : PrimFloat.float) : sqlite_value :=
  if PrimFloat.is_nan v then SqlNull else SqlFloat v.

(** What [sqlite3_bind_text] leaves in a parameter for the C string [v]:
    a copy of it with [SQLITE_TRANSIENT], the pointer alone with
    [SQLITE_STATIC]. *)
Definition text_value (v : string) (d : destructor) : sqlite_value :=
  match d with
  | SQLITE_TRANSIENT => SqlText v
  | SQLITE_STATIC => SqlStaticText
  end.

(** The calls the connection sees, in program order. *)
Inductive api_call :=
| Call_exec (sql : string)
| Call_prepare_v2 (sql : string)
| Call_bind_int (index : Z) (v : Z)
| Call_bind_double (index : Z) (v : PrimFloat.float)
| Call_bind_text (index : Z) (v : string) (d : destructor)
| Call_bind_null (index : Z)
| Call_step
| Call_changes
| Call_finalize.

(** A prepared statement: its text and the parameters bound so far. *)
Record sqlite3_stmt := {
  stmt_sql : string;
  stmt_params : list (Z * sqlite_value)
}.

(** The value of parameter [index] when the statement is stepped: the
    latest binding, NULL when there is none. *)
Definition param_at (params : list (Z * sqlite_value)) (index : Z) : sqlite_value :=
  fold_left (fun held p => if Z.eqb (fst p) index then snd p else held)
    params SqlNull.

(** How a store answers.  [store] is the state behind the [sqlite3 *]
    handle, including its last error text and change counter.
    [be_exec] gives the result code, the text left in [*errmsg] and the
    new state.  This is an open connection: the text is set whenever the
    code is not [SQLITE_OK].  The handle of a failed open, on which
    [sqlite3_exec] leaves [*errmsg] null, is the subject of [Lifetime]. *)
Record backend (store : Type) := {
  be_exec : store -> string -> Z * string * store;
  be_prepare : store -> string -> Z * store;
  be_step : store -> sqlite3_stmt -> Z * store;
  be_changes : store -> Z;
  be_errmsg : store -> string
}.
Arguments be_exec {store}.
Arguments be_prepare {store}.
Arguments be_step {store}.
Arguments be_changes {store}.
Arguments be_errmsg {store}.

(** The process state a member function runs in: the connection [db],
    what has been written to [std::cerr] (one entry per line), and the
    calls made so far. *)
Record world (store : Type) := {
  db : store;
  cerr : list string;
  calls : list api_call
}.
Arguments db {store}.
Arguments cerr {store}.
Arguments calls {store}.
Arguments Build_world {store}.

Definition M (store A : Type) : Type := world store -> A * world store.

Definition ret {store A} (a : A) : M store A := fun w => (a, w).

Definition bind {store A B} (m : M store A) (k : A -> M store B) : M store B :=
  fun w => let (a, w') := m w in k a w'.

Definition called {store} (c : api_call) (w : world store) : world store :=
  {| db := db w; cerr := cerr w; calls := (calls w ++ [c])%list |}.

(** [std::cerr << msg << std::endl]. *)
Definition cerr_endl {store} (msg : string) : M store unit :=
  fun w => (tt, {| db := db w; cerr := (cerr w ++ [msg])%list; calls := calls w |}).

Definition sqlite3_exec {store} (B : backend store) (sql : string)
  : M store (Z * string) :=
  fun w =>
    let '(rc, errMsg, db') := be_exec B (db w) sql in
    ((rc, errMsg),
     {| db := db'; cerr := cerr w; calls := (calls w ++ [Call_exec sql])%list |}).

Definition sqlite3_prepare_v2 {store} (B : backend store) (sql : string)
  : M store (Z * sqlite3_stmt) :=
  fun w =>
    let '(rc, db') := be_prepare B (db w) sql in
    ((rc, {| stmt_sql := sql; stmt_params := [] |}),
     {| db := db'; cerr := cerr w; calls := (calls w ++ [Call_prepare_v2 sql])%list |}).

Definition sqlite3_errmsg {store} (B : backend store) : M store string :=
  fun w => (be_errmsg B (db w), w).

Definition bound (stmt : sqlite3_stmt) (index : Z) (v : sqlite_value) : sqlite3_stmt :=
  {| stmt_sql := stmt_sql stmt; stmt_params := (stmt_params stmt ++ [(index, v)])%list |}.

Definition sqlite3_bind_int {store} (stmt : sqlite3_stmt) (index v : Z)
  : M store sqlite3_stmt :=
  fun w => (bound stmt index (SqlInteger v), called (Call_bind_int index v) w).

Definition sqlite3_bind_double {store} (stmt : sqlite3_stmt) (index : Z)
  (v : PrimFloat.float) : M store sqlite3_stmt :=
  fun w => (bound stmt index (double_value v), called (Call_bind_double index v) w).

(** [sqlite3_bind_text(stmt, index, v, -1, d)]: [v] is the C string the
    pointer designates when the call is made. *)
Definition sqlite3_bind_text {store} (stmt : sqlite3_stmt) (index : Z)
  (v : string) (d : destructor) : M store sqlite3_stmt :=
  fun w => (bound stmt index (text_value v d), called (Call_bind_text index v d) w).

Definition sqlite3_step {store} (B : backend store) (stmt : sqlite3_stmt)
  : M store Z :=
  fun w =>
    let '(rc, db') := be_step B (db w) stmt in
    (rc, {| db := db'; cerr := cerr w; calls := (calls w ++ [Call_step])%list |}).

Definition sqlite3_changes {store} (B : backend store) : M store Z :=
  fun w => (be_changes B (db w), called Call_changes w).

Definition sqlite3_finalize {store} (stmt : sqlite3_stmt) : M store unit :=
  fun w => (tt, called Call_finalize w).

End Sqlite.

Declare Scope sqlite_scope.
Notation "x <- m ;; k" := (Sqlite.bind m (fun x => k))
  (at level 61, m at next level, right associativity) : sqlite_scope.
Notation "' pat <- m ;; k" := (Sqlite.bind m (fun x => match x with pat => k end))
  (at level 61, pat pattern, m at next level, right associativity) : sqlite_scope.
Notation "m ;; k" := (Sqlite.bind m (fun _ => k))
  (at level 61, right associativity) : sqlite_scope.

(* ===================================================================== *)
(** ** class Database *)

Module Database.
Import Sqlite.
Local Open Scope sqlite_scope.

(** [std::variant<std::string, int, double>]: what a getter returns. *)
Inductive variant :=
| VString (s : string)
| VInt (i : Z)
| VDouble (d : PrimFloat.float).

(** [std::map<std::string, std::function<variant(const T&)>>]. *)
Definition field_mapping (T : Type) : Type := StdMap.t (T -> variant).

(** *** insert: building the statement text *)

(** The loop over [fieldMapping] that extends [sql] and [placeholders]. *)
Definition insert_loop {T} (fieldMapping : field_mapping T)
  (acc : string * string) : string * string :=
  fold_left
    (fun (acc : string * string) (entry : string * (T -> variant)) =>
       let (sql, placeholders) := acc in
       let (columnName, getter) := entry in
       (sql ++ (columnName ++ ","), placeholders ++ "?, "))
    fieldMapping acc.

(** The text handed to [sqlite3_prepare_v2]; [None] if a [pop_back]
    were applied to an empty string. *)
Definition insert_sql {T} (tableName : string) (fieldMapping : field_mapping T)
  : option string :=
  let (sql, placeholders) :=
    insert_loop fieldMapping
      (("INSERT INTO " ++ tableName) ++ "( ", " VALUES (") in
  match StdString.pop_back sql, StdString.pop_back placeholders with
  | Some sql', Some placeholders' => Some (sql' ++ placeholders')
  | _, _ => None
  end.

(** *** update: building the statement text *)

Definition update_loop {T} (fieldMapping : field_mapping T) (sql : string) : string :=
  fold_left
    (fun (sql : string) (entry : string * (T -> variant)) =>
       let (columnName, getter) := entry in
       sql ++ (columnName ++ "?, "))
    fieldMapping sql.

Definition update_sql {T} (tableName : string) (fieldMapping : field_mapping T)
  : option string :=
  let sql := update_loop fieldMapping (("UPDATE " ++ tableName) ++ " SET ") in
  match StdString.pop_back sql with
  | Some sql1 =>
      match StdString.pop_back sql1 with
      | Some sql2 => Some (sql2 ++ " WHERE id = ?;")
      | None => None
      end
  | None => None
  end.

(** *** Binding *)

(** One iteration of the binding loop: the branch is chosen by the
    alternative the extracted value holds, and [index] is incremented
    by the bind call.  A text goes as [strValue.c_str()].  [index] is an
    [int] counting the entries of the map from 1; it is a [Z] here, a map
    of 2^31 entries being out of reach. *)
Definition bind_field {store} (d : destructor) (value : variant)
  (stmt : sqlite3_stmt) (index : Z) : M store (sqlite3_stmt * Z) :=
  match value with
  | VInt i =>
      stmt' <- sqlite3_bind_int stmt index i ;; ret (stmt', index + 1)
  | VDouble x =>
      stmt' <- sqlite3_bind_double stmt index x ;; ret (stmt', index + 1)
  | VString strValue =>
      stmt' <- sqlite3_bind_text stmt index (StdString.c_str strValue) d ;;
      ret (stmt', index + 1)
  end%Z.

(** The binding loop over [fieldMapping]. *)
Fixpoint bind_fields {store T} (d : destructor) (data : T)
  (fieldMapping : field_mapping T) (stmt : sqlite3_stmt) (index : Z)
  : M store (sqlite3_stmt * Z) :=
  match fieldMapping with
  | [] => ret (stmt, index)
  | (columnName, getter) :: rest =>
      '(stmt', index') <- bind_field d (getter data) stmt index ;;
      bind_fields d data rest stmt' index'
  end.

(** *** insert

    The statement text goes to [sqlite3_prepare_v2] as [sql.c_str()],
    which is [sql] itself as long as no table or column name holds a NUL
    character; names are taken to hold none. *)

Definition insert_with {store T} (B : backend store) (sql : string) (data : T)
  (fieldMapping : field_mapping T) : M store bool :=
  '(rc, stmt) <- sqlite3_prepare_v2 B sql ;;
  if negb (Z.eqb rc SQLITE_OK) then
    msg <- sqlite3_errmsg B ;;
    cerr_endl ("Error preparing insert statement: " ++ msg) ;;
    ret false
  else
    '(stmt, index) <- bind_fields SQLITE_TRANSIENT data fieldMapping stmt 1%Z ;;
    rc <- sqlite3_step B stmt ;;
    if negb (Z.eqb rc SQLITE_DONE) then
      msg <- sqlite3_errmsg B ;;
      cerr_endl ("Error executing INSERT statement: " ++ msg) ;;
      sqlite3_finalize stmt ;;
      ret false
    else
      sqlite3_finalize stmt ;;
      ret true.

Definition insert {store T} (B : backend store) (tableName : string) (data : T)
  (fieldMapping : field_mapping T) (w : world store)
  : option (bool * world store) :=
  match insert_sql tableName fieldMapping with
  | Some sql => Some (insert_with B sql data fieldMapping w)
  | None => None
  end.

(** *** update

    Text values are bound with [SQLITE_STATIC] here ([insert] passes
    [SQLITE_TRANSIENT]): SQLite keeps the pointer into the loop's local
    [value] instead of copying the text.  The call records the
    destructor, and the parameter holds [SqlStaticText]. *)

Definition update_with {store T} (B : backend store) (sql : string) (id : Z)
  (data : T) (fieldMapping : field_mapping T) : M store bool :=
  '(rc, stmt) <- sqlite3_prepare_v2 B sql ;;
  if negb (Z.eqb rc SQLITE_OK) then
    msg <- sqlite3_errmsg B ;;
    cerr_endl ("Error preparing UPDATE statement: " ++ msg) ;;
    ret false
  else
    '(stmt, index) <- bind_fields SQLITE_STATIC data fieldMapping stmt 1%Z ;;
    stmt <- sqlite3_bind_int stmt index id ;;
    rc <- sqlite3_step B stmt ;;
    if negb (Z.eqb rc SQLITE_DONE) then
      msg <- sqlite3_errmsg B ;;
      cerr_endl ("Error executing update statement: " ++ msg) ;;
      sqlite3_finalize stmt ;;
      ret false
    else
      changes <- sqlite3_changes B ;;
      (if Z.eqb changes 0 then
         cerr_endl "No rows were updated. Check if the ID exists."
       else ret tt) ;;
      sqlite3_finalize stmt ;;
      ret true.

Definition update {store T} (B : backend store) (tableName : string) (id : Z)
  (data : T) (fieldMapping : field_mapping T) (w : world store)
  : option (bool * world store) :=
  match update_sql tableName fieldMapping with
  | Some sql => Some (update_with B sql id data fieldMapping w)
  | None => None
  end.

(** *** init *)

Definition foreignKeySupport : string := "PRAGMA foreign_keys = ON;".

Definition categoryTableQuery : string :=
  "CREATE TABLE IF NOT EXISTS category (" ++
  "id INTEGER PRIMARY KEY AUTOINCREMENT, " ++
  "name TEXT NOT NULL, " ++
  "description TEXT NOT NULL);".

Definition supplierTableQuery : string :=
  "CREATE TABLE IF NOT EXISTS suppliers (" ++
  "id INTEGER PRIMARY KEY AUTOINCREMENT, " ++
  "name TEXT NOT NULL, " ++
  "address TEXT NOT NULL, " ++
  "phone TEXT, " ++
  "email TEXT);".

Definition itemTableQuery : string :=
  "CREATE TABLE IF NOT EXISTS item (" ++
  "id INTEGER PRIMARY KEY AUTOINCREMENT, " ++
  "name TEXT NOT NULL, " ++
  "description TEXT NOT NULL, " ++
  "category_id INTEGRE NOT NULL, " ++
  "quantity INTEGER NOT NULL, " ++
  "unit_measurement TEXT NOT NULL, " ++
  "unit_price REAL NOT NULL, " ++
  "price REAL NOT NULL, " ++
  "supplier_id INTEGER NOT NULL, " ++
  "FOREIGN KEY(category_id) REFERENCES category(id), " ++
  "FOREIGN KEY(supplier_id) REFERENCES suppliers(id)" ++
  ");".

Definition userTableQuery : string :=
  "CREATE TABLE IF NOT EXISTS user (" ++
  "id INTEGER PRIMARY KEY AUTOINCREMENT, " ++
  "username TEXT NOT NULL, " ++
  "password TEXT NOT NULL, " ++
  "role TEXT NOT NULL, " ++
  "contact_info TEXT NOT NULL" ++
  ");".

Definition transactionTableQuery : string :=
  "CREATE TABLE IF NOT EXISTS transaction_records (" ++
  "id INTEGER PRIMARY KEY AUTOINCREMENT, " ++
  "item_id INTEGER NOT NULL, " ++
  "transaction_type TEXT NOT NULL, " ++
  "quantity INTEGER NOT NULL, " ++
  "transaction_date TEXT NOT NULL, " ++
  "user_id INTEGER NOT NULL, " ++
  "remarks TEXT, " ++
  "FOREIGN KEY(item_id) REFERENCES item(id), " ++
  "FOREIGN KEY(user_id) REFERENCES user(id)" ++
  ");".

(** One [sqlite3_exec] of [init] with its error report, on an open
    connection, where a failure comes with its error text; for the null
    pointer a handle that was never opened leaves, see
    [Lifetime.exec_or_report]. *)
Definition exec_or_report {store} (B : backend store) (sql : string)
  (what : string) : M store unit :=
  '(execute_sql, errMsg) <- sqlite3_exec B sql ;;
  if negb (Z.eqb execute_sql SQLITE_OK) then cerr_endl (what ++ errMsg)
  else ret tt.

Definition init {store} (B : backend store) : M store unit :=
  exec_or_report B foreignKeySupport "Error enabling foreign keys: " ;;
  exec_or_report B categoryTableQuery "Error Creating Category Table: " ;;
  exec_or_report B supplierTableQuery "Error Creating Supplier Table: " ;;
  exec_or_report B itemTableQuery "Error Creating Items Table: " ;;
  exec_or_report B userTableQuery "Error Creating User Table: " ;;
  exec_or_report B transactionTableQuery "Error Creating Transaction Table: ".

(** [getDBConnection]: the handle itself. *)
Definition getDBConnection {store} (w : world store) : store := db w.

(** Modelled from the spec: [Database::remove] is declared in
    [database.hpp] but its body is not part of the sources at hand.  The
    specification has it build [DELETE FROM table WHERE id = ?], bind the
    id, execute, and fail when the store rejects the statement. *)
Definition remove_sql (tableName : string) : string :=
  ("DELETE FROM " ++ tableName) ++ " WHERE id = ?".

(** Modelled from the spec: the body of [Database::remove], see
    [remove_sql]. *)
Definition remove {store} (B : backend store) (tableName : string) (id : Z)
  : M store bool :=
  '(rc, stmt) <- sqlite3_prepare_v2 B (remove_sql tableName) ;;
  if negb (Z.eqb rc SQLITE_OK) then
    ret false
  else
    stmt <- sqlite3_bind_int stmt 1%Z id ;;
    rc <- sqlite3_step B stmt ;;
    sqlite3_finalize stmt ;;
    ret (Z.eqb rc SQLITE_DONE).

End Database.

(* ===================================================================== *)
(** ** Statement texts *)

Module SqlText.

(** *** The shapes the documentation gives

    These three follow the wording of the mapper's description, not the
    code: they are what [Database.insert_sql], [Database.update_sql] and
    [Database.remove_sql] are compared with. *)

Definition documented_insert (table : string) (columns : list string) : string :=
  "INSERT INTO " ++ table ++ " (" ++ String.concat ", " columns ++ ") VALUES ("
    ++ String.concat ", " (map (fun _ => "?") columns) ++ ")".

Definition documented_update (table : string) (columns : list string) : string :=
  "UPDATE " ++ table ++ " SET "
    ++ String.concat ", " (map (fun c => c ++ " = ?") columns)
    ++ " WHERE id = ?".

Definition documented_delete (table : string) : string :=
  "DELETE FROM " ++ table ++ " WHERE id = ?".

(** *** Tokens *)

Inductive token :=
| TWord (w : string)
| TLParen
| TRParen
| TComma
| TParam
| TEquals
| TSemi
| TOther (c : ascii).

Definition is_word_char (c : ascii) : bool :=
  let n := nat_of_ascii c in
  ((65 <=? n) && (n <=? 90) || (97 <=? n) && (n <=? 122)
   || (48 <=? n) && (n <=? 57) || (n =? 95))%nat.

Definition flush (word : string) : list token :=
  match word with
  | EmptyString => []
  | _ => [TWord word]
  end.

Definition punct (c : ascii) : list token :=
  if Ascii.eqb c "(" then [TLParen]
  else if Ascii.eqb c ")" then [TRParen]
  else if Ascii.eqb c "," then [TComma]
  else if Ascii.eqb c "?" then [TParam]
  else if Ascii.eqb c "=" then [TEquals]
  else if Ascii.eqb c ";" then [TSemi]
  else if Ascii.eqb c " " then []
  else [TOther c].

(** [word] holds the characters of the word being read. *)
Fixpoint lex_from (s : string) (word : string) : list token :=
  match s with
  | EmptyString => flush word
  | String c rest =>
      if is_word_char c then lex_from rest (word ++ String c EmptyString)
      else (flush word ++ punct c ++ lex_from rest EmptyString)%list
  end.

Definition lex (s : string) : list token := lex_from s EmptyString.

(** *** Statements *)

Inductive statement :=
| StInsert (table : string) (columns : list string)
| StUpdate (table : string) (columns : list string)
| StDelete (table : string)
| StCreateTable (if_not_exists : bool) (table : string) (body : list token)
| StPragmaForeignKeys.

Definition is_word (k : string) (t : token) : bool :=
  match t with
  | TWord w => String.eqb w k
  | _ => false
  end.

(** Strips the keywords [ks] from the front of [ts]. *)
Fixpoint expect_words (ks : list string) (ts : list token) : option (list token) :=
  match ks with
  | [] => Some ts
  | k :: ks' =>
      match ts with
      | t :: ts' => if is_word k t then expect_words ks' ts' else None
      | [] => None
      end
  end.

(** [c1 , c2 , ...]: at least one name, no trailing comma. *)
Fixpoint parse_names (ts : list token) : option (list string * list token) :=
  match ts with
  | TWord c :: rest =>
      match rest with
      | TComma :: rest' =>
          match parse_names rest' with
          | Some (cs, r) => Some (c :: cs, r)
          | None => None
          end
      | _ => Some ([c], rest)
      end
  | _ => None
  end.

(** [? , ? , ...]: at least one placeholder, no trailing comma. *)
Fixpoint parse_params (ts : list token) : option (nat * list token) :=
  match ts with
  | TParam :: rest =>
      match rest with
      | TComma :: rest' =>
          match parse_params rest' with
          | Some (n, r) => Some (S n, r)
          | None => None
          end
      | _ => Some (1, rest)
      end
  | _ => None
  end.

(** [c1 = ? , c2 = ? , ...]: at least one assignment. *)
Fixpoint parse_assignments (ts : list token) : option (list string * list token) :=
  match ts with
  | TWord c :: TEquals :: TParam :: rest =>
      match rest with
      | TComma :: rest' =>
          match parse_assignments rest' with
          | Some (cs, r) => Some (c :: cs, r)
          | None => None
          end
      | _ => Some ([c], rest)
      end
  | _ => None
  end.

Definition at_end (ts : list token) : bool :=
  match ts with
  | [] | [TSemi] => true
  | _ => false
  end.

Definition where_id (ts : list token) : bool :=
  match expect_words ["WHERE"; "id"] ts with
  | Some (TEquals :: TParam :: rest) => at_end rest
  | _ => false
  end.

Definition parse_insert (ts : list token) : option statement :=
  match expect_words ["INSERT"; "INTO"] ts with
  | Some (TWord table :: TLParen :: r1) =>
      match parse_names r1 with
      | Some (columns, TRParen :: r2) =>
          match expect_words ["VALUES"] r2 with
          | Some (TLParen :: r3) =>
              match parse_params r3 with
              | Some (n, TRParen :: r4) =>
                  if at_end r4 && (n =? List.length columns)%nat
                  then Some (StInsert table columns) else None
              | _ => None
              end
          | _ => None
          end
      | _ => None
      end
  | _ => None
  end.

Definition parse_update (ts : list token) : option statement :=
  match expect_words ["UPDATE"] ts with
  | Some (TWord table :: r1) =>
      match expect_words ["SET"] r1 with
      | Some r2 =>
          match parse_assignments r2 with
          | Some (columns, r3) =>
              if where_id r3 then Some (StUpdate table columns) else None
          | None => None
          end
      | None => None
      end
  | _ => None
  end.

Definition parse_delete (ts : list token) : option statement :=
  match expect_words ["DELETE"; "FROM"] ts with
  | Some (TWord table :: r1) =>
      if where_id r1 then Some (StDelete table) else None
  | _ => None
  end.

(** What follows the parenthesis that closes a list opened by the
    caller, [depth] further ones being open; [None] when the list is not
    closed or holds a statement separator. *)
Fixpoint after_close (ts : list token) (depth : nat) : option (list token) :=
  match ts with
  | [] => None
  | TLParen :: rest => after_close rest (S depth)
  | TRParen :: rest =>
      match depth with
      | O => Some rest
      | S d => after_close rest d
      end
  | TSemi :: _ => None
  | _ :: rest => after_close rest depth
  end.

(** A column-definition list: opened by the caller, not empty, closed
    here, and the closing parenthesis ends the statement. *)
Definition closes_body (body : list token) : bool :=
  match body with
  | [] | TRParen :: _ => false
  | _ =>
      match after_close body 0 with
      | Some rest => at_end rest
      | None => false
      end
  end.

Definition parse_create (ts : list token) : option statement :=
  match expect_words ["CREATE"; "TABLE"] ts with
  | Some r1 =>
      match expect_words ["IF"; "NOT"; "EXISTS"] r1 with
      | Some (TWord table :: TLParen :: body) =>
          if closes_body body then Some (StCreateTable true table body) else None
      | Some _ => None
      | None =>
          match r1 with
          | TWord table :: TLParen :: body =>
              if closes_body body then Some (StCreateTable false table body) else None
          | _ => None
          end
      end
  | None => None
  end.

Definition parse_pragma (ts : list token) : option statement :=
  match expect_words ["PRAGMA"; "foreign_keys"] ts with
  | Some (TEquals :: r1) =>
      match expect_words ["ON"] r1 with
      | Some r2 => if at_end r2 then Some StPragmaForeignKeys else None
      | None => None
      end
  | _ => None
  end.

(** [r] is what is left of [ts] after some tokens were read. *)
Definition rest_of (r ts : list token) : Prop := exists read, ts = (read ++ r)%list.

Definition first_some {A} (a b : option A) : option A :=
  match a with
  | Some _ => a
  | None => b
  end.

Definition parse (sql : string) : option statement :=
  let ts := lex sql in
  first_some (parse_insert ts)
    (first_some (parse_update ts)
       (first_some (parse_delete ts)
          (first_some (parse_create ts) (parse_pragma ts)))).

Definition well_formed (sql : string) : bool :=
  match parse sql with
  | Some _ => true
  | None => false
  end.

(** The table a [CREATE TABLE IF NOT EXISTS] statement names. *)
Definition creates_if_absent (sql : string) : option string :=
  match parse sql with
  | Some (StCreateTable true table _) => Some table
  | _ => None
  end.

(** [FOREIGN KEY(column) REFERENCES parent(id)] clauses of a table body,
    as (column, parent) pairs. *)
Fixpoint foreign_keys (body : list token) : list (string * string) :=
  match body with
  | [] => []
  | t :: rest =>
      match expect_words ["FOREIGN"; "KEY"] body with
      | Some (TLParen :: TWord column :: TRParen :: r1) =>
          match expect_words ["REFERENCES"] r1 with
          | Some (TWord parent :: _) => (column, parent) :: foreign_keys rest
          | _ => foreign_keys rest
          end
      | _ => foreign_keys rest
      end
  end.

End SqlText.

(* ===================================================================== *)
(** ** A small store

    One concrete connection, enough to run the class on: tables of rows
    keyed by an integer id, the statement shapes of [SqlText], and
    foreign keys checked when enforcement is on. *)

Module MiniSqlite.
Import Sqlite SqlText.

Definition row : Type := Z * list (string * sqlite_value).

Record table := {
  tbl_name : string;
  tbl_foreign_keys : list (string * string);
  tbl_next_id : Z;
  tbl_rows : list row
}.

Record store := {
  foreign_keys_on : bool;
  tables : list table;
  changes : Z;
  errmsg : string
}.

Definition empty : store :=
  {| foreign_keys_on := false; tables := []; changes := 0; errmsg := "not an error" |}.

Definition table_names (st : store) : list string := map tbl_name (tables st).

Definition find_table (name : string) (st : store) : option table :=
  find (fun t => String.eqb (tbl_name t) name) (tables st).

(** Replaces the table [find_table] answers for the name of [t]. *)
Fixpoint put_table (t : table) (ts : list table) : list table :=
  match ts with
  | [] => []
  | t' :: rest =>
      if String.eqb (tbl_name t') (tbl_name t) then t :: rest
      else t' :: put_table t rest
  end.

Definition failed (rc : Z) (msg : string) (st : store) : Z * store :=
  (rc, {| foreign_keys_on := foreign_keys_on st; tables := tables st;
          changes := changes st; errmsg := msg |}).

Definition exec (st : store) (sql : string) : Z * string * store :=
  match parse sql with
  | Some StPragmaForeignKeys =>
      (SQLITE_OK, "",
       {| foreign_keys_on := true; tables := tables st;
          changes := changes st; errmsg := errmsg st |})
  | Some (StCreateTable if_not_exists name body) =>
      match find_table name st with
      | Some _ =>
          if if_not_exists then (SQLITE_OK, "", st)
          else (SQLITE_ERROR, "table " ++ name ++ " already exists", st)
      | None =>
          (SQLITE_OK, "",
           {| foreign_keys_on := foreign_keys_on st;
              tables := (tables st ++
                         [{| tbl_name := name;
                             tbl_foreign_keys := foreign_keys body;
                             tbl_next_id := 1;
                             tbl_rows := [] |}])%list;
              changes := changes st; errmsg := errmsg st |})
      end
  | _ => (SQLITE_ERROR, "syntax error", st)
  end.

Definition statement_table (s : statement) : option string :=
  match s with
  | StInsert t _ | StUpdate t _ | StDelete t => Some t
  | _ => None
  end.

Definition prepare (st : store) (sql : string) : Z * store :=
  match parse sql with
  | Some s =>
      match statement_table s with
      | Some t =>
          match find_table t st with
          | Some _ => (SQLITE_OK, st)
          | None => failed SQLITE_ERROR ("no such table: " ++ t) st
          end
      | None => failed SQLITE_ERROR "not a row statement" st
      end
  | None => failed SQLITE_ERROR "syntax error" st
  end.

(** The values of parameters [first], [first + 1], ... for [columns]. *)
Fixpoint column_values (columns : list string) (params : list (Z * sqlite_value))
  (first : Z) : list (string * sqlite_value) :=
  match columns with
  | [] => []
  | c :: rest => (c, param_at params first) :: column_values rest params (first + 1)
  end.

Definition lookup (c : string) (values : list (string * sqlite_value))
  : option sqlite_value :=
  option_map snd (find (fun cv => String.eqb (fst cv) c) values).

Definition has_row (id : Z) (t : table) : bool :=
  existsb (fun r => Z.eqb (fst r) id) (tbl_rows t).

(** Every foreign-key column of [t] set in [values] names a row of its
    parent (NULL references nothing). *)
Definition references_ok (st : store) (t : table)
  (values : list (string * sqlite_value)) : bool :=
  forallb
    (fun fk : string * string =>
       match lookup (fst fk) values with
       | Some (SqlInteger k) =>
           match find_table (snd fk) st with
           | Some parent => has_row k parent
           | None => false
           end
       | Some SqlNull | None => true
       | Some _ => false
       end)
    (tbl_foreign_keys t).

(** Some row of some table refers to row [id] of table [name]. *)
Definition referenced (st : store) (name : string) (id : Z) : bool :=
  existsb
    (fun child : table =>
       existsb
         (fun fk : string * string =>
            String.eqb (snd fk) name &&
            existsb
              (fun r : row =>
                 match lookup (fst fk) (snd r) with
                 | Some (SqlInteger k) => Z.eqb k id
                 | _ => false
                 end)
              (tbl_rows child))
         (tbl_foreign_keys child))
    (tables st).

(** [values] written over the columns of a row. *)
Definition overwrite (values old : list (string * sqlite_value))
  : list (string * sqlite_value) :=
  (values ++
   filter (fun cv => negb (existsb (fun nv => String.eqb (fst nv) (fst cv)) values)) old)%list.

Definition done (st : store) (t : table) (n : Z) : Z * store :=
  (SQLITE_DONE,
   {| foreign_keys_on := foreign_keys_on st;
      tables := put_table t (tables st);
      changes := n; errmsg := errmsg st |}).

Definition count_rows (id : Z) (t : table) : Z :=
  Z.of_nat (List.length (filter (fun r => Z.eqb (fst r) id) (tbl_rows t))).

Definition step (st : store) (stmt : sqlite3_stmt) : Z * store :=
  let params := stmt_params stmt in
  match parse (stmt_sql stmt) with
  | Some (StInsert name columns) =>
      match find_table name st with
      | Some t =>
          let values := column_values columns params 1 in
          if foreign_keys_on st && negb (references_ok st t values) then
            failed SQLITE_CONSTRAINT "FOREIGN KEY constraint failed" st
          else
            done st {| tbl_name := tbl_name t;
                       tbl_foreign_keys := tbl_foreign_keys t;
                       tbl_next_id := tbl_next_id t + 1;
                       tbl_rows := (tbl_rows t ++ [(tbl_next_id t, values)])%list |} 1
      | None => failed SQLITE_ERROR ("no such table: " ++ name) st
      end
  | Some (StUpdate name columns) =>
      match find_table name st, param_at params (Z.of_nat (List.length columns) + 1) with
      | Some t, SqlInteger id =>
          let values := column_values columns params 1 in
          if has_row id t && foreign_keys_on st && negb (references_ok st t values) then
            failed SQLITE_CONSTRAINT "FOREIGN KEY constraint failed" st
          else
            done st {| tbl_name := tbl_name t;
                       tbl_foreign_keys := tbl_foreign_keys t;
                       tbl_next_id := tbl_next_id t;
                       tbl_rows :=
                         map (fun r : row =>
                                if Z.eqb (fst r) id
                                then (fst r, overwrite values (snd r)) else r)
                             (tbl_rows t) |}
                 (count_rows id t)
      | Some t, _ => done st t 0
      | None, _ => failed SQLITE_ERROR ("no such table: " ++ name) st
      end
  | Some (StDelete name) =>
      match find_table name st, param_at params 1 with
      | Some t, SqlInteger id =>
          if has_row id t && foreign_keys_on st && referenced st name id then
            failed SQLITE_CONSTRAINT "FOREIGN KEY constraint failed" st
          else
            done st {| tbl_name := tbl_name t;
                       tbl_foreign_keys := tbl_foreign_keys t;
                       tbl_next_id := tbl_next_id t;
                       tbl_rows :=
                       filter (fun r : row => negb (Z.eqb (fst r) id)) (tbl_rows t) |}
                 (count_rows id t)
      | Some t, _ => done st t 0
      | None, _ => failed SQLITE_ERROR ("no such table: " ++ name) st
      end
  | _ => failed SQLITE_ERROR "syntax error" st
  end%Z.

Definition mini : backend store :=
  {| be_exec := exec;
     be_prepare := prepare;
     be_step := step;
     be_changes := changes;
     be_errmsg := errmsg |}.

Definition fresh : world store :=
  {| db := empty; cerr := []; calls := [] |}.

(** The rows of a table, [[]] when the table is absent. *)
Definition rows_of (name : string) (st : store) : list row :=
  match find_table name st with
  | Some t => tbl_rows t
  | None => []
  end.

End MiniSqlite.

(* ===================================================================== *)
(** ** What a run does, written as lists

    Descriptions of the calls and messages of a run, used to state what
    the member functions do; each is proved equal to the run itself in
    [RunFacts]. *)

Module Runs.
Import Sqlite Database.

(** The SQLite value the bind call of the loop stores for an extracted
    value, text being bound with destructor [d]. *)
Definition to_sqlite (d : destructor) (value : variant) : sqlite_value :=
  match value with
  | VString s => text_value (StdString.c_str s) d
  | VInt i => SqlInteger i
  | VDouble x => double_value x
  end.


(** The bind call made for an extracted value at [index]. *)
Definition bind_call (d : destructor) (index : Z) (value : variant) : api_call :=
  match value with
  | VString s => Call_bind_text index (StdString.c_str s) d
  | VInt i => Call_bind_int index i
  | VDouble x => Call_bind_double index x
  end.

(** The bind calls of a traversal of [fieldMapping] starting at [index]. *)
Fixpoint bind_calls {T} (d : destructor) (data : T) (fieldMapping : field_mapping T)
  (index : Z) : list api_call :=
  match fieldMapping with
  | [] => []
  | (columnName, getter) :: rest =>
      bind_call d index (getter data) :: bind_calls d data rest (index + 1)
  end.

(** The parameters those calls set. *)
Fixpoint bound_params {T} (d : destructor) (data : T)
  (fieldMapping : field_mapping T) (index : Z) : list (Z * sqlite_value) :=
  match fieldMapping with
  | [] => []
  | (columnName, getter) :: rest =>
      (index, to_sqlite d (getter data)) :: bound_params d data rest (index + 1)
  end.

(** The parameter numbers [first], [first + 1], ... of [n] placeholders. *)
Fixpoint indices (first : Z) (n : nat) : list Z :=
  match n with
  | O => []
  | S n' => first :: indices (first + 1) n'
  end.

(** The table-creation statements of [init], each with the text its
    failure is reported under, in program order. *)
Definition creation_statements : list (string * string) :=
  [ (categoryTableQuery, "Error Creating Category Table: ");
    (supplierTableQuery, "Error Creating Supplier Table: ");
    (itemTableQuery, "Error Creating Items Table: ");
    (userTableQuery, "Error Creating User Table: ");
    (transactionTableQuery, "Error Creating Transaction Table: ") ].

(** All statements of [init]: the pragma, then the creations. *)
Definition init_statements : list (string * string) :=
  (foreignKeySupport, "Error enabling foreign keys: ") :: creation_statements.

(** The line a result code puts on [std::cerr], if any. *)
Definition report (what : string) (rc : Z) (errMsg : string) : list string :=
  if negb (Z.eqb rc SQLITE_OK) then [what ++ errMsg] else [].

(** The store after executing [statements] one after the other, whatever
    each returns. *)
Fixpoint exec_all {store} (B : backend store) (st : store)
  (statements : list (string * string)) : store :=
  match statements with
  | [] => st
  | (sql, what) :: rest => exec_all B (snd (be_exec B st sql)) rest
  end.

(** The lines reported while doing so. *)
Fixpoint failures {store} (B : backend store) (st : store)
  (statements : list (string * string)) : list string :=
  match statements with
  | [] => []
  | (sql, what) :: rest =>
      (report what (fst (fst (be_exec B st sql))) (snd (fst (be_exec B st sql)))
       ++ failures B (snd (be_exec B st sql)) rest)%list
  end.

(** [sql] is one of the five creation texts of [init], a single
    [CREATE TABLE IF NOT EXISTS] statement for the table [name]. *)
Definition creates (sql name : string) : Prop :=
  In sql (map fst creation_statements)
  /\ SqlText.creates_if_absent sql = Some name.

(** What SQLite documents of the six texts [init] executes, and of no
    other text, over a store whose tables [tables_of] lists: the
    foreign-key pragma succeeds and touches no table; each creation text
    succeeds and changes nothing when its table exists, leaves its table
    in place when it succeeds, and drops no table. *)
Record schema_contract {store} (B : backend store)
  (tables_of : store -> list string) : Prop := {
  pragma_succeeds :
    forall st,
      fst (fst (be_exec B st foreignKeySupport)) = SQLITE_OK
      /\ tables_of (snd (be_exec B st foreignKeySupport)) = tables_of st;
  create_present :
    forall st sql name,
      creates sql name -> In name (tables_of st) ->
      fst (fst (be_exec B st sql)) = SQLITE_OK
      /\ tables_of (snd (be_exec B st sql)) = tables_of st;
  create_absent :
    forall st sql name,
      creates sql name ->
      fst (fst (be_exec B st sql)) = SQLITE_OK ->
      In name (tables_of (snd (be_exec B st sql)));
  create_keeps :
    forall st sql name t,
      creates sql name -> In t (tables_of st) ->
      In t (tables_of (snd (be_exec B st sql)))
}.

(** What SQLite documents of the change counter, over a store whose
    contents [rows] observes: preparing a statement changes nothing, and
    neither does a step after which no row counts as changed. *)
Record changes_contract {store R} (B : backend store) (rows : store -> R)
  : Prop := {
  prepare_keeps : forall st sql, rows (snd (be_prepare B st sql)) = rows st;
  no_change_keeps :
    forall st stmt,
      be_changes B (snd (be_step B st stmt)) = 0%Z ->
      rows (snd (be_step B st stmt)) = rows st
}.

(** The statement texts among a list of calls that were prepared. *)
Definition prepared (cs : list api_call) : list string :=
  flat_map (fun c => match c with Call_prepare_v2 sql => [sql] | _ => [] end) cs.

(** Splitting a text at a separator character. *)
Fixpoint split (sep : ascii) (s : string) : list string :=
  match s with
  | EmptyString => [EmptyString]
  | String c rest =>
      if Ascii.eqb c sep then EmptyString :: split sep rest
      else
        match split sep rest with
        | [] => [String c EmptyString]
        | piece :: pieces => String c piece :: pieces
        end
  end.

End Runs.

(* ===================================================================== *)
(** ** Callers

    Records and field mappings of the kind the menu layer hands to the
    mapper, after the entities of the data model, and a few connections
    to run on. *)

Module Examples.
Import Sqlite Database.
Import PrimFloat.

Record Category := { category_name : string; category_description : string }.

Definition tools : Category :=
  {| category_name := "Tools"; category_description := "Hand tools" |}.

Definition power_tools : Category :=
  {| category_name := "Power tools"; category_description := "Drills and saws" |}.

Definition category_fields : field_mapping Category :=
  StdMap.of_list
    [ ("name", fun c => VString (category_name c));
      ("description", fun c => VString (category_description c)) ].

(** The same two columns, each key carrying its own equals sign. *)
Definition category_assignments : field_mapping Category :=
  StdMap.of_list
    [ ("name =", fun c => VString (category_name c));
      ("description =", fun c => VString (category_description c)) ].





Record Stock := {
  stock_name : string;
  stock_quantity : Z;
  stock_unit_price : PrimFloat.float
}.

Definition hammers : Stock :=
  {| stock_name := "Hammer"; stock_quantity := 12; stock_unit_price := 7.5%float |}.

Definition stock_fields : field_mapping Stock :=
  StdMap.of_list
    [ ("name", fun i => VString (stock_name i));
      ("quantity", fun i => VInt (stock_quantity i));
      ("unit_price", fun i => VDouble (stock_unit_price i)) ].

(** A mapping over another record type with the keys of
    [category_fields], entered in the other order and with getters of
    other kinds. *)
Definition stock_labels : field_mapping Stock :=
  StdMap.of_list
    [ ("description", fun i => VInt (stock_quantity i));
      ("name", fun i => VDouble (stock_unit_price i)) ].

(** A store that rejects everything it is given. *)
Definition refusing : backend unit :=
  {| be_exec := fun _ _ => (SQLITE_ERROR, "disk I/O error", tt);
     be_prepare := fun _ _ => (SQLITE_ERROR, tt);
     be_step := fun _ _ => (SQLITE_ERROR, tt);
     be_changes := fun _ => 0%Z;
     be_errmsg := fun _ => "disk I/O error" |}.

Definition nowhere : world unit := {| db := tt; cerr := []; calls := [] |}.

(** A store that prepares whatever it is given and whose state is the
    parameters of the statement last stepped. *)
Definition recording : backend (list (Z * sqlite_value)) :=
  {| be_exec := fun st _ => (SQLITE_OK, EmptyString, st);
     be_prepare := fun st _ => (SQLITE_OK, st);
     be_step := fun _ stmt => (SQLITE_DONE, stmt_params stmt);
     be_changes := fun _ => 1%Z;
     be_errmsg := fun _ => "not an error" |}.

Definition blank : world (list (Z * sqlite_value)) :=
  {| db := []; cerr := []; calls := [] |}.


(** A connection on which [init] has run. *)
Definition initialised : world MiniSqlite.store :=
  snd (init MiniSqlite.mini MiniSqlite.fresh).

(** Executes one statement text with the given parameters. *)
Definition seeded (sql : string) (params : list (Z * sqlite_value))
  (st : MiniSqlite.store) : MiniSqlite.store :=
  snd (MiniSqlite.step st {| stmt_sql := sql; stmt_params := params |}).

(** A connection holding category 1 and an item that refers to it. *)
Definition stocked : world MiniSqlite.store :=
  {| db :=
       seeded (SqlText.documented_insert "item" ["name"; "category_id"])
         [(1%Z, SqlText "Hammer"); (2%Z, SqlInteger 1)]
         (seeded (SqlText.documented_insert "category" ["name"; "description"])
            [(1%Z, SqlText "Tools"); (2%Z, SqlText "Hand tools")]
            (db initialised));
     cerr := [];
     calls := [] |}.

End Examples.

(* ===================================================================== *)
(** ** The connection's lifetime *)

Module Lifetime.
Import Sqlite Database.

(** Result code of a call on a handle that is not an open connection
    (sqlite3.h). *)
Definition SQLITE_MISUSE : Z := 21.

(** How a file becomes a connection and a connection ends:
    [sqlite3_open] gives a result code and a handle, the handle also when
    it fails; [sqlite3_close] takes the handle and gives a result code. *)
Record connector (store : Type) := {
  co_open : string -> Z * store;
  co_close : store -> Z
}.
Arguments co_open {store}.
Arguments co_close {store}.

(** [std::cerr] as the stream it is: the lines completed so far, the
    text written after the last of them, and whether the stream still
    takes output. *)
Record ostream := {
  os_lines : list string;
  os_pending : string;
  os_good : bool
}.

(** A stream holding [lines] and taking output. *)
Definition settled (lines : list string) : ostream :=
  {| os_lines := lines; os_pending := EmptyString; os_good := true |}.

(** [os << text] for a [const char *], [None] being the null pointer:
    a null pointer sets [badbit] and writes nothing, and a stream that is
    not good takes nothing. *)
Definition put (text : option string) (os : ostream) : ostream :=
  if os_good os then
    match text with
    | Some s =>
        {| os_lines := os_lines os; os_pending := os_pending os ++ s; os_good := true |}
    | None =>
        {| os_lines := os_lines os; os_pending := os_pending os; os_good := false |}
    end
  else os.

(** [os << std::endl]. *)
Definition endl (os : ostream) : ostream :=
  if os_good os then
    {| os_lines := (os_lines os ++ [os_pending os])%list;
       os_pending := EmptyString; os_good := true |}
  else os.

(** [sqlite3_exec] with the error text as the pointer it leaves in
    [*errmsg], which is null when SQLite sets no text. *)
Definition exec_with (store : Type) : Type :=
  store -> string -> Z * option string * store.

(** The handle the object owns, [std::cerr], and the calls made. *)
Record process (store : Type) := {
  handle : store;
  err : ostream;
  made : list api_call
}.
Arguments handle {store}.
Arguments err {store}.
Arguments made {store}.
Arguments Build_process {store}.

(** [Database::Database(dbName)]: opens [dbName]; a non-zero result is
    written to [std::cerr], the message directly followed by the error
    text of the handle, and construction goes on. *)
Definition Database_ctor {store} (O : connector store) (errmsg : store -> string)
  (dbName : string) (os : ostream) : process store :=
  let (rc, h) := co_open O dbName in
  {| handle := h;
     err :=
       if negb (Z.eqb rc 0)
       then endl (put (Some (errmsg h)) (put (Some "Can't open database") os))
       else os;
     made := [] |}.

(** One [sqlite3_exec] of [init] with its error report; [errMsg] is the
    pointer the variable holds after the call, streamed as it is. *)
Definition exec_or_report {store} (exec : exec_with store) (sql what : string)
  (p : process store) : process store :=
  let '(execute_sql, errMsg, h) := exec (handle p) sql in
  {| handle := h;
     err :=
       if negb (Z.eqb execute_sql SQLITE_OK)
       then endl (put errMsg (put (Some what) (err p)))
       else err p;
     made := (made p ++ [Call_exec sql])%list |}.

(** [Database::init] over this process state. *)
Definition init {store} (exec : exec_with store) (p : process store)
  : process store :=
  let p := exec_or_report exec foreignKeySupport "Error enabling foreign keys: " p in
  let p := exec_or_report exec categoryTableQuery "Error Creating Category Table: " p in
  let p := exec_or_report exec supplierTableQuery "Error Creating Supplier Table: " p in
  let p := exec_or_report exec itemTableQuery "Error Creating Items Table: " p in
  let p := exec_or_report exec userTableQuery "Error Creating User Table: " p in
  exec_or_report exec transactionTableQuery "Error Creating Transaction Table: " p.

(** [getDBConnection]: the handle itself. *)
Definition getDBConnection {store} (p : process store) : store := handle p.

(** [Database::~Database()]: closes the handle, whatever it is; the
    result code is dropped. *)
Definition Database_dtor {store} (O : connector store) (p : process store) : Z :=
  co_close O (handle p).

(** A store that always sets its error text, as [exec_with]. *)
Definition with_texts {store} (B : backend store) : exec_with store :=
  fun st sql =>
    let '(rc, errMsg, st') := be_exec B st sql in (rc, Some errMsg, st').

(** The process state of a [world] whose stream takes output. *)
Definition of_world {store} (w : world store) : process store :=
  {| handle := db w; err := settled (cerr w); made := calls w |}.

(** A file that cannot be opened: [sqlite3_open] answers
    [SQLITE_CANTOPEN] and every [sqlite3_exec] on the handle it leaves
    answers [SQLITE_MISUSE] without an error text. *)
Definition unopenable : connector unit :=
  {| co_open := fun _ => (14%Z, tt); co_close := fun _ => SQLITE_MISUSE |}.

Definition misused : exec_with unit := fun _ _ => (SQLITE_MISUSE, None, tt).

End Lifetime.

(* ===================================================================== *)
(** ** Names, texts and calls *)

Module Names.
Import Sqlite.

(** Every character of [s] satisfies [p]. *)
Fixpoint all_chars (p : ascii -> bool) (s : string) : bool :=
  match s with
  | EmptyString => true
  | String c rest => p c && all_chars p rest
  end.

(** Letters, digits and underscores only. *)
Definition word (s : string) : bool := all_chars SqlText.is_word_char s.

(** A word of at least one character. *)
Definition identifier (s : string) : bool :=
  negb (String.eqb s EmptyString) && word s.

(** The characters of a text that holds no string literal, quoted name,
    comment or statement separator. *)
Definition simple_char (c : ascii) : bool :=
  SqlText.is_word_char c || Ascii.eqb c " " || Ascii.eqb c "(" || Ascii.eqb c ")"
  || Ascii.eqb c "," || Ascii.eqb c "?" || Ascii.eqb c "=".

Definition simple (s : string) : bool := all_chars simple_char s.

(** A store that prepares no simple text in which the opening and the
    closing parentheses differ in number. *)
Definition rejects_open_parentheses {store} (B : backend store) : Prop :=
  forall st sql,
    simple sql = true ->
    StdString.count "(" sql <> StdString.count ")" sql ->
    Z.eqb (fst (be_prepare B st sql)) SQLITE_OK = false.

(** A store that prepares nothing but the statements [SqlText]
    recognises. *)
Definition prepares_statements_only {store} (B : backend store) : Prop :=
  forall st sql,
    SqlText.well_formed sql = false ->
    Z.eqb (fst (be_prepare B st sql)) SQLITE_OK = false.

(** A store whose [sqlite3_prepare_v2] looks at the parentheses only. *)
Definition counting : backend unit :=
  {| be_exec := fun _ _ => (SQLITE_OK, EmptyString, tt);
     be_prepare :=
       fun _ sql =>
         (if Nat.eqb (StdString.count "(" sql) (StdString.count ")" sql)
          then SQLITE_OK else SQLITE_ERROR, tt);
     be_step := fun _ _ => (SQLITE_DONE, tt);
     be_changes := fun _ => 1%Z;
     be_errmsg := fun _ => "syntax error" |}.

(** The parameter a bind call addresses. *)
Definition bind_index (c : api_call) : option Z :=
  match c with
  | Call_bind_int index _ | Call_bind_double index _
  | Call_bind_text index _ _ | Call_bind_null index => Some index
  | _ => None
  end.

(** The destructors the text bindings among [cs] were given, in order. *)
Definition text_destructors (cs : list api_call) : list destructor :=
  flat_map (fun c => match c with Call_bind_text _ _ d => [d] | _ => [] end) cs.

(** The entries of a mapping whose getter extracts text from [data]. *)
Definition text_entries {T} (data : T) (fm : Database.field_mapping T)
  : list (string * (T -> Database.variant)) :=
  filter (fun e => match snd e data with Database.VString _ => true | _ => false end)
    fm.

(** The parameters the bind calls among [cs] address, in order. *)
Definition bind_indices (cs : list api_call) : list Z :=
  flat_map (fun c => match bind_index c with Some i => [i] | None => [] end) cs.

Definition is_finalize (c : api_call) : bool :=
  match c with
  | Call_finalize => true
  | _ => false
  end.

Definition is_step (c : api_call) : bool :=
  match c with
  | Call_step => true
  | _ => false
  end.

(** The calls a member function added to those of [before]. *)
Definition added {store} (before after : world store) : list api_call :=
  skipn (List.length (calls before)) (calls after).

(** The calls of one statement from its preparation on: prepared, it is
    used by [body], which steps it once and prepares and finalizes
    nothing, and is then finalized; not prepared, nothing follows. *)
Definition statement_lifetime (was_prepared : bool) (sql : string)
  (cs : list api_call) : Prop :=
  if was_prepared then
    exists body,
      cs = (Call_prepare_v2 sql :: body ++ [Call_finalize])%list
      /\ filter is_finalize body = []
      /\ filter is_step body = [Call_step]
      /\ Runs.prepared body = []
  else cs = [Call_prepare_v2 sql].

(** The tables the foreign keys of the creation statements [sqls] refer
    to. *)
Definition referenced_tables (sqls : list string) : list string :=
  flat_map
    (fun sql =>
       match SqlText.parse sql with
       | Some (SqlText.StCreateTable _ _ body) => map snd (SqlText.foreign_keys body)
       | _ => []
       end)
    sqls.

(** Every foreign key of the creation statements [sqls] names a table
    created by an earlier one of them, or one of [seen]. *)
Fixpoint references_resolved (seen : list string) (sqls : list string) : bool :=
  match sqls with
  | [] => true
  | sql :: rest =>
      match SqlText.parse sql with
      | Some (SqlText.StCreateTable _ name body) =>
          forallb (fun fk : string * string => existsb (String.eqb (snd fk)) seen)
            (SqlText.foreign_keys body)
          && references_resolved (name :: seen) rest
      | _ => false
      end
  end.

End Names.

(* ===================================================================== *)
(** * Facts *)

(** ** Strings *)

Module StdStringFacts.
Import StdString.

Lemma append_assoc (a b c : string) : (a ++ b) ++ c = a ++ (b ++ c).
Proof.
  induction a as [|x a IH]; simpl; [reflexivity | now rewrite IH].
Qed.

Lemma append_empty_r (a : string) : a ++ "" = a.
Proof.
  induction a as [|x a IH]; simpl; [reflexivity | now rewrite IH].
Qed.

Lemma length_append (a b : string) :
  String.length (a ++ b) = String.length a + String.length b.
Proof.
  induction a as [|x a IH]; simpl; [reflexivity | now rewrite IH].
Qed.

Lemma pop_back_snoc (s : string) (c : ascii) :
  pop_back (s ++ String c "") = Some s.
Proof.
  induction s as [|x s IH]; [reflexivity|].
  change (pop_back (String x (s ++ String c "")) = Some (String x s)).
  destruct s as [|y s]; [reflexivity|].
  simpl in IH |- *. now rewrite IH.
Qed.

Lemma back_snoc (s : string) (c : ascii) : back (s ++ String c "") = Some c.
Proof.
  induction s as [|x s IH]; [reflexivity|].
  destruct s as [|y s]; [reflexivity|].
  simpl in IH |- *. exact IH.
Qed.

Lemma back_append_nonempty (a b : string) :
  b <> "" -> back (a ++ b) = back b.
Proof.
  intros Hb. induction a as [|x a IH]; [reflexivity|].
  simpl. destruct (a ++ b) eqn:E; [|exact IH].
  destruct a; simpl in E; [contradiction | discriminate].
Qed.

Lemma count_append (c : ascii) (a b : string) :
  count c (a ++ b) = count c a + count c b.
Proof.
  induction a as [|x a IH]; simpl; [reflexivity | rewrite IH; lia].
Qed.

(** A string is determined by what [pop_back] and [back] leave of it. *)
Lemma pop_back_defined (s : string) : s <> "" -> pop_back s <> None.
Proof.
  induction s as [|x s IH]; [congruence|].
  intros _. destruct s as [|y s]; [simpl; congruence|].
  change (option_map (String x) (pop_back (String y s)) <> None).
  destruct (pop_back (String y s)) eqn:E; simpl; [congruence|].
  exfalso. apply IH; [congruence | reflexivity].
Qed.

End StdStringFacts.

(** ** std::map *)

Module StdMapFacts.
Import StdMap.

Lemma ascii_compare_refl (a : ascii) : Ascii.compare a a = Eq.
Proof. unfold Ascii.compare. apply N.compare_refl. Qed.

Lemma ascii_compare_lt_trans (a b c : ascii) :
  Ascii.compare a b = Lt -> Ascii.compare b c = Lt -> Ascii.compare a c = Lt.
Proof.
  unfold Ascii.compare. rewrite !N.compare_lt_iff. lia.
Qed.

Lemma key_lt_irrefl (k : string) : ~ key_lt k k.
Proof.
  unfold key_lt. induction k as [|a k IH]; simpl; [discriminate|].
  now rewrite ascii_compare_refl.
Qed.

Lemma key_lt_trans (x y z : string) : key_lt x y -> key_lt y z -> key_lt x z.
Proof.
  unfold key_lt. revert y z.
  induction x as [|a x IH]; intros [|b y] [|c z]; simpl; try congruence.
  destruct (Ascii.compare a b) eqn:Eab; destruct (Ascii.compare b c) eqn:Ebc;
    intros H1 H2; try discriminate.
  - apply Ascii.compare_eq_iff in Eab, Ebc. subst.
    rewrite ascii_compare_refl. eauto.
  - apply Ascii.compare_eq_iff in Eab. subst. now rewrite Ebc.
  - apply Ascii.compare_eq_iff in Ebc. subst. now rewrite Eab.
  - now rewrite (ascii_compare_lt_trans _ _ _ Eab Ebc).
Qed.

Lemma key_gt_lt (x y : string) : String.compare x y = Gt -> key_lt y x.
Proof.
  unfold key_lt. intros H. rewrite String.compare_antisym, H. reflexivity.
Qed.

Lemma key_lt_asym (x y : string) : key_lt x y -> ~ key_lt y x.
Proof.
  intros H1 H2. exact (key_lt_irrefl x (key_lt_trans _ _ _ H1 H2)).
Qed.

Section Emplace.
Context {V : Type}.

Lemma emplace_above (k0 k : string) (v : V) (m : t V) :
  key_lt k0 k -> Forall (key_lt k0) (keys m) ->
  Forall (key_lt k0) (keys (emplace k v m)).
Proof.
  intros Hk. induction m as [|[k' v'] m IH]; intros Hm; simpl.
  - repeat constructor. exact Hk.
  - inversion Hm as [|? ? Hk' Hrest]; subst.
    destruct (String.compare k k'); simpl.
    + exact Hm.
    + constructor; [exact Hk | exact Hm].
    + constructor; [exact Hk' | exact (IH Hrest)].
Qed.

Lemma emplace_ok (k : string) (v : V) (m : t V) : ok m -> ok (emplace k v m).
Proof.
  unfold ok. induction m as [|[k' v'] m IH]; intros Hm; simpl.
  - repeat constructor.
  - inversion Hm as [|? ? Hsorted Habove]; subst.
    destruct (String.compare k k') eqn:E; simpl.
    + exact Hm.
    + constructor; [exact Hm|].
      constructor; [exact E|].
      eapply Forall_impl; [|exact Habove].
      intros k'' H. exact (key_lt_trans _ _ _ E H).
    + constructor; [exact (IH Hsorted)|].
      apply emplace_above; [exact (key_gt_lt _ _ E) | exact Habove].
Qed.

Lemma of_list_ok (l : list (string * V)) : ok (of_list l).
Proof.
  unfold of_list.
  assert (H : forall m, ok m ->
              ok (fold_left (fun m kv => emplace (fst kv) (snd kv) m) l m)).
  { induction l as [|[k v] l IH]; intros m Hm; simpl; [exact Hm|].
    apply IH, emplace_ok, Hm. }
  apply H. constructor.
Qed.

End Emplace.

(** Two strictly increasing key sequences over the same keys are the
    same sequence: a [std::map]'s traversal is fixed by its key set. *)
Lemma sorted_keys_unique (l1 l2 : list string) :
  StronglySorted key_lt l1 -> StronglySorted key_lt l2 ->
  (forall k, In k l1 <-> In k l2) -> l1 = l2.
Proof.
  revert l2. induction l1 as [|a l1 IH]; intros [|b l2] S1 S2 Hsame.
  - reflexivity.
  - exfalso. apply (proj2 (Hsame b)). now left.
  - exfalso. apply (proj1 (Hsame a)). now left.
  - inversion S1 as [|? ? S1' F1]; inversion S2 as [|? ? S2' F2]; subst.
    rewrite Forall_forall in F1, F2.
    assert (Hab : a = b).
    { destruct (proj1 (Hsame a) (or_introl eq_refl)) as [E|Ia]; [now symmetry|].
      destruct (proj2 (Hsame b) (or_introl eq_refl)) as [E|Ib]; [exact E|].
      exfalso. exact (key_lt_asym _ _ (F1 _ Ib) (F2 _ Ia)). }
    subst b. f_equal. apply IH; [exact S1' | exact S2'|].
    intros k; split; intros Hk.
    + destruct (proj1 (Hsame k) (or_intror Hk)) as [E|H]; [|exact H].
      subst k. exfalso. exact (key_lt_irrefl _ (F1 _ Hk)).
    + destruct (proj2 (Hsame k) (or_intror Hk)) as [E|H]; [|exact H].
      subst k. exfalso. exact (key_lt_irrefl _ (F2 _ Hk)).
Qed.

End StdMapFacts.

(** ** The statement texts the mapper builds *)

Module StatementFacts.
Import StdString StdStringFacts StdMap Database.

Lemma concat_empty_cons (x : string) (l : list string) :
  String.concat "" (x :: l) = x ++ String.concat "" l.
Proof.
  destruct l; simpl; [now rewrite append_empty_r | reflexivity].
Qed.

(** A loop that appends [k ++ sep] for each [k] leaves the [sep]-joined
    list followed by one more [sep]. *)
Lemma chunks_joined (sep : string) (l : list string) :
  l <> [] ->
  String.concat "" (map (fun k => k ++ sep) l) = String.concat sep l ++ sep.
Proof.
  induction l as [|a l IH]; [congruence|]. intros _.
  destruct l as [|b l]; [reflexivity|].
  change (map (fun k => k ++ sep) (a :: b :: l))
    with ((a ++ sep) :: map (fun k => k ++ sep) (b :: l)).
  rewrite concat_empty_cons, IH by discriminate.
  change (String.concat sep (a :: b :: l))
    with (a ++ sep ++ String.concat sep (b :: l)).
  now rewrite !append_assoc.
Qed.

Section Loops.
Context {T : Type}.
Implicit Types fm : field_mapping T.

Lemma insert_loop_appends fm (sql placeholders : string) :
  insert_loop fm (sql, placeholders) =
  (sql ++ String.concat "" (map (fun k => k ++ ",") (keys fm)),
   placeholders ++ String.concat "" (map (fun q => q ++ " ") (map (fun _ => "?,") fm))).
Proof.
  unfold insert_loop. revert sql placeholders.
  induction fm as [|[c g] fm IH]; intros sql placeholders.
  - simpl. now rewrite !append_empty_r.
  - cbn [fold_left keys map fst]. rewrite IH.
    rewrite !concat_empty_cons, !append_assoc. reflexivity.
Qed.

Lemma update_loop_appends fm (sql : string) :
  update_loop fm sql =
  sql ++ String.concat "" (map (fun k => k ++ ", ") (map (fun c => c ++ "?") (keys fm))).
Proof.
  unfold update_loop. revert sql.
  induction fm as [|[c g] fm IH]; intros sql.
  - simpl. now rewrite append_empty_r.
  - cbn [fold_left keys map fst]. rewrite IH.
    rewrite !concat_empty_cons, !append_assoc. reflexivity.
Qed.

(** What [insert_sql] yields on a non-empty mapping. *)
Lemma insert_sql_nonempty (tableName : string) fm :
  fm <> [] ->
  insert_sql tableName fm =
  Some ("INSERT INTO " ++ tableName ++ "( " ++ String.concat "," (keys fm)
          ++ " VALUES (" ++ String.concat " " (map (fun _ => "?,") fm)).
Proof.
  intros Hfm. unfold insert_sql. rewrite insert_loop_appends.
  rewrite !chunks_joined
    by (destruct fm; [congruence | discriminate]).
  rewrite <- (append_assoc _ (String.concat "," (keys fm)) ",").
  rewrite <- (append_assoc " VALUES (" _ " ").
  change "," with (String "," ""). change " " with (String " " "").
  rewrite !pop_back_snoc. now rewrite !append_assoc.
Qed.

(** What [insert_sql] yields on the empty mapping. *)
Lemma insert_sql_empty (tableName : string) :
  insert_sql tableName ([] : field_mapping T) =
  Some ("INSERT INTO " ++ tableName ++ "( VALUES ").
Proof.
  unfold insert_sql, insert_loop. cbn [fold_left].
  change "( " with ("(" ++ String " " "").
  rewrite <- append_assoc, pop_back_snoc.
  change (pop_back " VALUES (") with (Some " VALUES ").
  now rewrite !append_assoc.
Qed.

(** What [update_sql] yields on a non-empty mapping. *)
Lemma update_sql_nonempty (tableName : string) fm :
  fm <> [] ->
  update_sql tableName fm =
  Some ("UPDATE " ++ tableName ++ " SET "
          ++ String.concat ", " (map (fun c => c ++ "?") (keys fm))
          ++ " WHERE id = ?;").
Proof.
  intros Hfm. unfold update_sql. rewrite update_loop_appends.
  rewrite chunks_joined
    by (destruct fm; [congruence | discriminate]).
  change ", " with ("," ++ String " " "").
  rewrite <- !append_assoc, pop_back_snoc.
  change "," with (String "," "").
  rewrite pop_back_snoc. now rewrite !append_assoc.
Qed.

(** What [update_sql] yields on the empty mapping. *)
Lemma update_sql_empty (tableName : string) :
  update_sql tableName ([] : field_mapping T) =
  Some ("UPDATE " ++ tableName ++ " SE WHERE id = ?;").
Proof.
  unfold update_sql, update_loop. cbn [fold_left].
  change " SET " with (" SE" ++ "T" ++ String " " "").
  rewrite <- !append_assoc, pop_back_snoc.
  change "T" with (String "T" "").
  rewrite pop_back_snoc. now rewrite !append_assoc.
Qed.

(** No [pop_back] of either builder meets an empty string. *)
Lemma insert_sql_defined (tableName : string) fm :
  insert_sql tableName fm <> None.
Proof.
  destruct fm as [|e fm].
  - now rewrite insert_sql_empty.
  - now rewrite insert_sql_nonempty.
Qed.

Lemma update_sql_defined (tableName : string) fm :
  update_sql tableName fm <> None.
Proof.
  destruct fm as [|e fm].
  - now rewrite update_sql_empty.
  - now rewrite update_sql_nonempty.
Qed.

End Loops.

End StatementFacts.

(** ** Runs of the member functions *)

Module RunFacts.
Import Sqlite Database Runs.

Ltac run_step :=
  unfold bind, ret, cerr_endl, sqlite3_errmsg, sqlite3_finalize, sqlite3_changes,
    sqlite3_step, sqlite3_prepare_v2, sqlite3_exec, sqlite3_bind_int,
    sqlite3_bind_double, sqlite3_bind_text, called, bound;
  cbn [db cerr calls stmt_sql stmt_params fst snd].

Section Run.
Context {store : Type} (B : backend store).

Lemma bind_fields_run {T} (d : destructor) (data : T) (fm : field_mapping T)
  (stmt : sqlite3_stmt) (index : Z) (w : world store) :
  bind_fields d data fm stmt index w =
  (({| stmt_sql := stmt_sql stmt;
       stmt_params := (stmt_params stmt ++ bound_params d data fm index)%list |},
    (index + Z.of_nat (List.length fm))%Z),
   {| db := db w; cerr := cerr w;
      calls := (calls w ++ bind_calls d data fm index)%list |}).
Proof.
  revert stmt index w. induction fm as [|[c g] fm IH]; intros stmt index w.
  - destruct stmt, w. cbn. unfold ret. now rewrite !app_nil_r, Z.add_0_r.
  - cbn [bind_fields bind_calls bound_params List.length].
    unfold bind at 1, bind_field.
    replace (index + Z.of_nat (S (List.length fm)))%Z
      with (index + 1 + Z.of_nat (List.length fm))%Z by lia.
    destruct (g data); run_step; rewrite IH; cbn [db cerr calls stmt_sql stmt_params];
      rewrite <- !app_assoc; reflexivity.
Qed.

Lemma insert_with_prepare_failed {T} (sql : string) (data : T)
  (fm : field_mapping T) (w : world store) :
  Z.eqb (fst (be_prepare B (db w) sql)) SQLITE_OK = false ->
  insert_with B sql data fm w =
  (false,
   {| db := snd (be_prepare B (db w) sql);
      cerr := (cerr w ++ [("Error preparing insert statement: " ++ be_errmsg B (snd (be_prepare B (db w) sql)))%string])%list;
      calls := (calls w ++ [Call_prepare_v2 sql])%list |}).
Proof.
  intros H. unfold insert_with. run_step.
  destruct (be_prepare B (db w) sql) as [rc db1]. cbn [fst snd] in *.
  now rewrite H.
Qed.

Lemma insert_with_prepared {T} (sql : string) (data : T)
  (fm : field_mapping T) (w : world store) :
  Z.eqb (fst (be_prepare B (db w) sql)) SQLITE_OK = true ->
  insert_with B sql data fm w =
  let stepped :=
    be_step B (snd (be_prepare B (db w) sql))
      {| stmt_sql := sql; stmt_params := bound_params SQLITE_TRANSIENT data fm 1 |} in
  let cs :=
    (calls w ++ Call_prepare_v2 sql :: bind_calls SQLITE_TRANSIENT data fm 1
       ++ [Call_step; Call_finalize])%list in
  if Z.eqb (fst stepped) SQLITE_DONE then
    (true, {| db := snd stepped; cerr := cerr w; calls := cs |})
  else
    (false,
     {| db := snd stepped;
        cerr := (cerr w ++ [("Error executing INSERT statement: " ++ be_errmsg B (snd stepped))%string])%list;
        calls := cs |}).
Proof.
  intros H. unfold insert_with. unfold bind at 1. unfold sqlite3_prepare_v2.
  destruct (be_prepare B (db w) sql) as [rc db1]. cbn [fst snd] in *.
  rewrite H. cbn [negb]. unfold bind at 1. rewrite bind_fields_run.
  run_step. cbn [app].
  destruct (be_step B db1 _) as [rc2 db2]. cbn [fst snd].
  destruct (Z.eqb rc2 SQLITE_DONE); cbn [negb db cerr calls fst snd];
    rewrite <- !app_assoc; reflexivity.
Qed.

Lemma update_with_prepare_failed {T} (sql : string) (id : Z) (data : T)
  (fm : field_mapping T) (w : world store) :
  Z.eqb (fst (be_prepare B (db w) sql)) SQLITE_OK = false ->
  update_with B sql id data fm w =
  (false,
   {| db := snd (be_prepare B (db w) sql);
      cerr := (cerr w ++ [("Error preparing UPDATE statement: " ++ be_errmsg B (snd (be_prepare B (db w) sql)))%string])%list;
      calls := (calls w ++ [Call_prepare_v2 sql])%list |}).
Proof.
  intros H. unfold update_with. run_step.
  destruct (be_prepare B (db w) sql) as [rc db1]. cbn [fst snd] in *.
  now rewrite H.
Qed.

Lemma update_with_prepared {T} (sql : string) (id : Z) (data : T)
  (fm : field_mapping T) (w : world store) :
  Z.eqb (fst (be_prepare B (db w) sql)) SQLITE_OK = true ->
  update_with B sql id data fm w =
  let last := (1 + Z.of_nat (List.length fm))%Z in
  let stepped :=
    be_step B (snd (be_prepare B (db w) sql))
      {| stmt_sql := sql;
         stmt_params :=
           (bound_params SQLITE_STATIC data fm 1 ++ [(last, SqlInteger id)])%list |} in
  let cs :=
    (calls w ++ Call_prepare_v2 sql :: bind_calls SQLITE_STATIC data fm 1
       ++ [Call_bind_int last id; Call_step])%list in
  if Z.eqb (fst stepped) SQLITE_DONE then
    (true,
     {| db := snd stepped;
        cerr := (cerr w ++
                 if Z.eqb (be_changes B (snd stepped)) 0
                 then ["No rows were updated. Check if the ID exists."] else [])%list;
        calls := (cs ++ [Call_changes; Call_finalize])%list |})
  else
    (false,
     {| db := snd stepped;
        cerr := (cerr w ++ [("Error executing update statement: " ++ be_errmsg B (snd stepped))%string])%list;
        calls := (cs ++ [Call_finalize])%list |}).
Proof.
  intros H. unfold update_with. unfold bind at 1. unfold sqlite3_prepare_v2.
  destruct (be_prepare B (db w) sql) as [rc db1]. cbn [fst snd] in *.
  rewrite H. cbn [negb]. unfold bind at 1. rewrite bind_fields_run.
  run_step. cbn [app].
  destruct (be_step B db1 _) as [rc2 db2]. cbn [fst snd].
  destruct (Z.eqb rc2 SQLITE_DONE); cbn [negb db cerr calls fst snd].
  - destruct (Z.eqb (be_changes B db2) 0); run_step;
      rewrite ?app_nil_r, <- !app_assoc; cbn [app]; rewrite <- ?app_assoc; reflexivity.
  - rewrite <- !app_assoc. cbn [app]. rewrite <- ?app_assoc. reflexivity.
Qed.

End Run.

End RunFacts.

(** ** Runs of [init] and [remove] *)

Module InitFacts.
Import Sqlite Database Runs RunFacts.

Section Init.
Context {store : Type} (B : backend store).

Lemma exec_or_report_run (sql what : string) (w : world store) :
  exec_or_report B sql what w =
  (tt,
   {| db := snd (be_exec B (db w) sql);
      cerr := (cerr w ++ report what (fst (fst (be_exec B (db w) sql)))
                           (snd (fst (be_exec B (db w) sql))))%list;
      calls := (calls w ++ [Call_exec sql])%list |}).
Proof.
  unfold exec_or_report, report. run_step.
  destruct (be_exec B (db w) sql) as [[rc msg] st']. cbn [fst snd].
  destruct (negb (Z.eqb rc SQLITE_OK)); run_step; now rewrite ?app_nil_r.
Qed.

(** [init] executes its six statements one after the other and reports
    the failures among them. *)
Lemma init_run (w : world store) :
  init B w =
  (tt,
   {| db := exec_all B (db w) init_statements;
      cerr := (cerr w ++ failures B (db w) init_statements)%list;
      calls := (calls w ++ map (fun s => Call_exec (fst s)) init_statements)%list |}).
Proof.
  unfold init.
  repeat (unfold bind at 1; rewrite exec_or_report_run).
  rewrite exec_or_report_run. cbn [db cerr calls].
  cbn [init_statements creation_statements exec_all failures map fst snd].
  rewrite <- !app_assoc, !app_nil_r. cbn [app]. reflexivity.
Qed.

Lemma report_nil (what : string) (rc : Z) (msg : string) :
  report what rc msg = [] -> rc = SQLITE_OK.
Proof.
  unfold report. destruct (Z.eqb rc SQLITE_OK) eqn:E; cbn [negb].
  - intros _. now apply Z.eqb_eq.
  - discriminate.
Qed.

Lemma report_ok (what msg : string) : report what SQLITE_OK msg = [].
Proof. reflexivity. Qed.

Lemma remove_run (tableName : string) (id : Z) (w : world store) :
  remove B tableName id w =
  let prepared := be_prepare B (db w) (remove_sql tableName) in
  let stepped :=
    be_step B (snd prepared)
      {| stmt_sql := remove_sql tableName; stmt_params := [(1%Z, SqlInteger id)] |} in
  if Z.eqb (fst prepared) SQLITE_OK then
    (Z.eqb (fst stepped) SQLITE_DONE,
     {| db := snd stepped; cerr := cerr w;
        calls := (calls w ++ [Call_prepare_v2 (remove_sql tableName);
                              Call_bind_int 1 id; Call_step; Call_finalize])%list |})
  else
    (false,
     {| db := snd prepared; cerr := cerr w;
        calls := (calls w ++ [Call_prepare_v2 (remove_sql tableName)])%list |}).
Proof.
  unfold remove. run_step.
  destruct (be_prepare B (db w) (remove_sql tableName)) as [rc db1]. cbn [fst snd].
  destruct (Z.eqb rc SQLITE_OK); cbn [negb]; [|reflexivity].
  run_step. cbn [app].
  destruct (be_step B db1 _) as [rc2 db2]. cbn [fst snd db cerr calls].
  rewrite <- !app_assoc. reflexivity.
Qed.

End Init.

End InitFacts.

(** ** Shapes of the built texts *)

Module ShapeFacts.
Import StdString StdStringFacts StdMap Database SqlText.

Lemma back_append_some (a b : string) (c : ascii) :
  back b = Some c -> back (a ++ b) = Some c.
Proof.
  intros H. rewrite back_append_nonempty; [exact H|].
  intros ->. discriminate.
Qed.

(** The placeholder text of [insert_sql] ends in a comma. *)
Lemma placeholders_back {E} (l : list E) :
  l <> [] -> back (String.concat " " (map (fun _ => "?,") l)) = Some ","%char.
Proof.
  induction l as [|a l IH]; [congruence|]. intros _.
  destruct l as [|b l]; [reflexivity|].
  change (back ("?," ++ " " ++ String.concat " " (map (fun _ => "?,") (b :: l)))
          = Some ","%char).
  apply back_append_some, back_append_some, IH. discriminate.
Qed.

Lemma placeholders_count {E} (c : ascii) (l : list E) :
  Ascii.eqb c "?" = false -> Ascii.eqb c "," = false -> Ascii.eqb c " " = false ->
  count c (String.concat " " (map (fun _ => "?,") l)) = 0.
Proof.
  intros H1 H2 H3. induction l as [|a l IH]; [reflexivity|].
  destruct l as [|b l].
  - cbn. now rewrite H1, H2.
  - change (count c ("?," ++ " " ++ String.concat " " (map (fun _ => "?,") (b :: l))) = 0).
    rewrite !count_append, IH. cbn. now rewrite H1, H2, H3.
Qed.

(** One placeholder per entry. *)
Lemma placeholders_params {E} (l : list E) :
  count "?" (String.concat " " (map (fun _ => "?,") l)) = List.length l.
Proof.
  induction l as [|a l IH]; [reflexivity|].
  destruct l as [|b l]; [reflexivity|].
  change (count "?" ("?," ++ " " ++ String.concat " " (map (fun _ => "?,") (b :: l)))
          = S (List.length (b :: l))).
  rewrite !count_append, IH. reflexivity.
Qed.

Lemma documented_insert_back (table : string) (columns : list string) :
  back (documented_insert table columns) = Some ")"%char.
Proof.
  unfold documented_insert. repeat apply back_append_some. reflexivity.
Qed.

Lemma documented_update_back (table : string) (columns : list string) :
  back (documented_update table columns) = Some "?"%char.
Proof.
  unfold documented_update. repeat apply back_append_some. reflexivity.
Qed.

(** Every assignment of the documented UPDATE is three characters longer
    than what [update_sql] writes for the column. *)
Lemma assignments_length (columns : list string) :
  String.length (String.concat ", " (map (fun c => c ++ "?") columns))
  + 3 * List.length columns
  = String.length (String.concat ", " (map (fun c => c ++ " = ?") columns)).
Proof.
  induction columns as [|a l IH]; [reflexivity|].
  destruct l as [|b l].
  - cbn [map String.concat List.length]. rewrite !length_append. cbn. lia.
  - change (String.length ((a ++ "?") ++ ", "
                           ++ String.concat ", " (map (fun c => c ++ "?") (b :: l)))
            + 3 * S (List.length (b :: l))
            = String.length ((a ++ " = ?") ++ ", "
                           ++ String.concat ", " (map (fun c => c ++ " = ?") (b :: l)))).
    rewrite !length_append, <- IH. cbn [String.length]. lia.
Qed.

End ShapeFacts.


(** ** What the recogniser accepts *)

Module RecogniserFacts.
Import SqlText.

Lemma rest_of_refl (ts : list token) : rest_of ts ts.
Proof. now exists []. Qed.

Lemma rest_of_trans (a b c : list token) : rest_of a b -> rest_of b c -> rest_of a c.
Proof.
  intros [r1 ->] [r2 ->]. exists (r2 ++ r1)%list. now rewrite app_assoc.
Qed.

Lemma rest_of_tail (t : token) (r ts : list token) :
  rest_of (t :: r) ts -> rest_of r ts.
Proof.
  intros [read ->]. exists (read ++ [t])%list. now rewrite <- app_assoc.
Qed.

Lemma rest_of_last (r ts : list token) (d : token) :
  rest_of r ts -> r <> [] -> last ts d = last r d.
Proof.
  intros [read ->] Hr. induction read as [|x read IH]; [reflexivity|].
  cbn [app]. change (last (x :: (read ++ r)%list) d)
    with (match (read ++ r)%list with [] => x | _ :: _ => last (read ++ r)%list d end).
  destruct (read ++ r)%list eqn:E; [|exact IH].
  apply app_eq_nil in E. destruct E as [_ E]. contradiction.
Qed.

Lemma expect_words_rest (ks : list string) (ts r : list token) :
  expect_words ks ts = Some r -> rest_of r ts.
Proof.
  revert ts. induction ks as [|k ks IH]; intros ts H; cbn [expect_words] in H.
  - injection H as ->. apply rest_of_refl.
  - destruct ts as [|t ts]; [discriminate|].
    destruct (is_word k t); [|discriminate].
    destruct (IH _ H) as [read ->].
    now exists (t :: read).
Qed.

(** The three list parsers leave a rest of their input. *)
Lemma parse_names_rest (n : nat) (ts : list token) (cs : list string)
  (r : list token) :
  List.length ts <= n -> parse_names ts = Some (cs, r) -> rest_of r ts.
Proof.
  revert ts cs r. induction n as [|n IH]; intros ts cs r Hn H.
  - destruct ts; [discriminate | cbn in Hn; lia].
  - destruct ts as [|[w| | | | | | |] ts]; try discriminate.
    cbn [parse_names] in H.
    destruct ts as [|[| | | | | | |] ts'];
      try (injection H as _ <-; now exists [TWord w]).
    destruct (parse_names ts') as [[cs' r']|] eqn:E; [|discriminate].
    injection H as _ <-.
    cbn [List.length] in Hn. destruct (IH ts' cs' r' ltac:(lia) E) as [read ->].
    now exists (TWord w :: TComma :: read).
Qed.

Lemma parse_params_rest (n : nat) (ts : list token) (k : nat) (r : list token) :
  List.length ts <= n -> parse_params ts = Some (k, r) -> rest_of r ts.
Proof.
  revert ts k r. induction n as [|n IH]; intros ts k r Hn H.
  - destruct ts; [discriminate | cbn in Hn; lia].
  - destruct ts as [|[| | | | | | |] ts]; try discriminate.
    cbn [parse_params] in H.
    destruct ts as [|[| | | | | | |] ts'];
      try (injection H as _ <-; now exists [TParam]).
    destruct (parse_params ts') as [[k' r']|] eqn:E; [|discriminate].
    injection H as _ <-.
    cbn [List.length] in Hn. destruct (IH ts' k' r' ltac:(lia) E) as [read ->].
    now exists (TParam :: TComma :: read).
Qed.

Lemma parse_assignments_rest (n : nat) (ts : list token) (cs : list string)
  (r : list token) :
  List.length ts <= n -> parse_assignments ts = Some (cs, r) -> rest_of r ts.
Proof.
  revert ts cs r. induction n as [|n IH]; intros ts cs r Hn H.
  - destruct ts; [discriminate | cbn in Hn; lia].
  - destruct ts as [|[w| | | | | | |] [|[| | | | | | |] [|[| | | | | | |] ts]]];
      try discriminate.
    cbn [parse_assignments] in H.
    destruct ts as [|[| | | | | | |] ts'];
      try (injection H as _ <-; now exists [TWord w; TEquals; TParam]).
    destruct (parse_assignments ts') as [[cs' r']|] eqn:E; [|discriminate].
    injection H as _ <-.
    cbn [List.length] in Hn. destruct (IH ts' cs' r' ltac:(lia) E) as [read ->].
    now exists (TWord w :: TEquals :: TParam :: TComma :: read).
Qed.

Lemma at_end_cases (ts : list token) : at_end ts = true -> ts = [] \/ ts = [TSemi].
Proof.
  destruct ts as [|[| | | | | | |] [|? ?]]; cbn; intros H;
    try discriminate; auto.
Qed.

(** A statement ends after its last token or after one semicolon. *)
Lemma ended_last (t : token) (r : list token) :
  at_end r = true -> last (t :: r) TSemi = t \/ last (t :: r) TSemi = TSemi.
Proof.
  intros H. destruct (at_end_cases r H) as [-> | ->]; cbn; auto.
Qed.

Lemma where_id_last (ts : list token) :
  where_id ts = true -> ts <> [] /\ last ts TSemi <> TComma.
Proof.
  unfold where_id. destruct (expect_words ["WHERE"; "id"] ts) as [r|] eqn:E;
    [|discriminate].
  destruct r as [|[| | | | | | |] [|[| | | | | | |] r]]; try discriminate.
  intros H. apply expect_words_rest in E.
  apply rest_of_tail in E. split.
  - destruct E as [read ->]. intros E. apply app_eq_nil in E.
    destruct E as [_ E]. discriminate.
  - rewrite (rest_of_last _ _ TSemi E) by discriminate.
    destruct (ended_last TParam r H) as [-> | ->]; discriminate.
Qed.

Lemma parse_insert_last (ts : list token) (st : statement) :
  parse_insert ts = Some st -> last ts TSemi <> TComma.
Proof.
  unfold parse_insert.
  destruct (expect_words ["INSERT"; "INTO"] ts) as [r0|] eqn:E0; [|discriminate].
  destruct r0 as [|[table| | | | | | |] [|[| | | | | | |] r1]]; try discriminate.
  destruct (parse_names r1) as [[columns r1']|] eqn:E1; [|discriminate].
  destruct r1' as [|[| | | | | | |] r2]; try discriminate.
  destruct (expect_words ["VALUES"] r2) as [r2'|] eqn:E2; [|discriminate].
  destruct r2' as [|[| | | | | | |] r3]; try discriminate.
  destruct (parse_params r3) as [[n r3']|] eqn:E3; [|discriminate].
  destruct r3' as [|[| | | | | | |] r4]; try discriminate.
  destruct (at_end r4) eqn:E4; [|discriminate]. intros _.
  assert (H : rest_of (TRParen :: r4) ts).
  { apply rest_of_trans with (b := r3);
      [exact (parse_params_rest _ _ _ _ (le_n _) E3)|].
    apply rest_of_tail with (t := TLParen).
    apply rest_of_trans with (b := r2); [exact (expect_words_rest _ _ _ E2)|].
    apply rest_of_tail with (t := TRParen).
    apply rest_of_trans with (b := r1);
      [exact (parse_names_rest _ _ _ _ (le_n _) E1)|].
    apply rest_of_tail with (t := TLParen), rest_of_tail with (t := TWord table).
    exact (expect_words_rest _ _ _ E0). }
  rewrite (rest_of_last _ _ TSemi H) by discriminate.
  destruct (ended_last TRParen r4 E4) as [-> | ->]; discriminate.
Qed.

Lemma parse_update_last (ts : list token) (st : statement) :
  parse_update ts = Some st -> last ts TSemi <> TComma.
Proof.
  unfold parse_update.
  destruct (expect_words ["UPDATE"] ts) as [r0|] eqn:E0; [|discriminate].
  destruct r0 as [|[table| | | | | | |] r1]; try discriminate.
  destruct (expect_words ["SET"] r1) as [r2|] eqn:E1; [|discriminate].
  destruct (parse_assignments r2) as [[columns r3]|] eqn:E2; [|discriminate].
  destruct (where_id r3) eqn:E3; [|discriminate]. intros _.
  destruct (where_id_last r3 E3) as [Hne Hlast].
  assert (H : rest_of r3 ts).
  { apply rest_of_trans with (b := r2);
      [exact (parse_assignments_rest _ _ _ _ (le_n _) E2)|].
    apply rest_of_trans with (b := r1); [exact (expect_words_rest _ _ _ E1)|].
    apply rest_of_tail with (t := TWord table).
    exact (expect_words_rest _ _ _ E0). }
  now rewrite (rest_of_last _ _ TSemi H Hne).
Qed.

Lemma parse_delete_last (ts : list token) (st : statement) :
  parse_delete ts = Some st -> last ts TSemi <> TComma.
Proof.
  unfold parse_delete.
  destruct (expect_words ["DELETE"; "FROM"] ts) as [r0|] eqn:E0; [|discriminate].
  destruct r0 as [|[table| | | | | | |] r1]; try discriminate.
  destruct (where_id r1) eqn:E1; [|discriminate]. intros _.
  destruct (where_id_last r1 E1) as [Hne Hlast].
  assert (H : rest_of r1 ts).
  { apply rest_of_tail with (t := TWord table).
    exact (expect_words_rest _ _ _ E0). }
  now rewrite (rest_of_last _ _ TSemi H Hne).
Qed.

(** What [after_close] answers starts right after a closing parenthesis
    of its input. *)
Lemma after_close_rest (ts : list token) (depth : nat) (r : list token) :
  after_close ts depth = Some r -> rest_of (TRParen :: r) ts.
Proof.
  revert depth. induction ts as [|t ts IH]; intros depth H; [discriminate|].
  assert (Hcons : forall d, after_close ts d = Some r -> rest_of (TRParen :: r) (t :: ts)).
  { intros d Hd. destruct (IH d Hd) as [read ->]. now exists (t :: read). }
  destruct t; cbn [after_close] in H; try (exact (Hcons _ H)); try discriminate.
  destruct depth as [|d]; [|exact (Hcons _ H)].
  injection H as ->. apply rest_of_refl.
Qed.

Lemma closes_body_last (body : list token) :
  closes_body body = true -> body <> [] /\ last body TSemi <> TComma.
Proof.
  unfold closes_body. intros H.
  assert (Hne : body <> []) by (intros ->; discriminate).
  split; [exact Hne|].
  assert (H' : match after_close body 0 with
               | Some rest => at_end rest
               | None => false
               end = true).
  { destruct body as [|[| | | | | | |] body]; try discriminate; exact H. }
  destruct (after_close body 0) as [rest|] eqn:E; [|discriminate].
  rewrite (rest_of_last _ _ TSemi (after_close_rest _ _ _ E)) by discriminate.
  destruct (ended_last TRParen rest H') as [-> | ->]; discriminate.
Qed.

Lemma parse_create_last (ts : list token) (st : statement) :
  parse_create ts = Some st -> last ts TSemi <> TComma.
Proof.
  unfold parse_create.
  destruct (expect_words ["CREATE"; "TABLE"] ts) as [r1|] eqn:E0; [|discriminate].
  assert (H0 := expect_words_rest _ _ _ E0).
  destruct (expect_words ["IF"; "NOT"; "EXISTS"] r1) as [r2|] eqn:E1.
  - destruct r2 as [|[table| | | | | | |] [|[| | | | | | |] body]]; try discriminate.
    destruct (closes_body body) eqn:E2; [|discriminate]. intros _.
    destruct (closes_body_last body E2) as [Hne Hlast].
    assert (H : rest_of body ts).
    { apply rest_of_trans with (b := r1); [|exact H0].
      apply rest_of_tail with (t := TLParen), rest_of_tail with (t := TWord table).
      exact (expect_words_rest _ _ _ E1). }
    now rewrite (rest_of_last _ _ TSemi H Hne).
  - destruct r1 as [|[table| | | | | | |] [|[| | | | | | |] body]]; try discriminate.
    destruct (closes_body body) eqn:E2; [|discriminate]. intros _.
    destruct (closes_body_last body E2) as [Hne Hlast].
    assert (H : rest_of body ts).
    { apply rest_of_tail with (t := TLParen), rest_of_tail with (t := TWord table).
      exact H0. }
    now rewrite (rest_of_last _ _ TSemi H Hne).
Qed.

Lemma parse_pragma_last (ts : list token) (st : statement) :
  parse_pragma ts = Some st -> last ts TSemi <> TComma.
Proof.
  unfold parse_pragma.
  destruct (expect_words ["PRAGMA"; "foreign_keys"] ts) as [r0|] eqn:E0;
    [|discriminate].
  destruct r0 as [|[| | | | | | |] r1]; try discriminate.
  destruct (expect_words ["ON"] r1) as [r2|] eqn:E1; [|discriminate].
  destruct (at_end r2) eqn:E2; [|discriminate]. intros _.
  destruct r1 as [|t r1']; [discriminate|]. cbn [expect_words] in E1.
  destruct (is_word "ON" t) eqn:Ew; [|discriminate]. injection E1 as ->.
  assert (H : rest_of (t :: r2) ts).
  { apply rest_of_tail with (t := TEquals). exact (expect_words_rest _ _ _ E0). }
  rewrite (rest_of_last _ _ TSemi H) by discriminate.
  destruct (ended_last t r2 E2) as [-> | ->]; [|discriminate].
  destruct t; discriminate.
Qed.

(** No statement the recogniser accepts ends in a comma. *)
Lemma parse_last (sql : string) (st : statement) :
  parse sql = Some st -> last (lex sql) TSemi <> TComma.
Proof.
  unfold parse, first_some.
  destruct (parse_insert (lex sql)) eqn:E1; [intros _; eapply parse_insert_last, E1|].
  destruct (parse_update (lex sql)) eqn:E2; [intros _; eapply parse_update_last, E2|].
  destruct (parse_delete (lex sql)) eqn:E3; [intros _; eapply parse_delete_last, E3|].
  destruct (parse_create (lex sql)) eqn:E4; [intros _; eapply parse_create_last, E4|].
  apply parse_pragma_last.
Qed.

Lemma lex_trailing_comma (s word : string) :
  last (lex_from (s ++ ",") word) TSemi = TComma.
Proof.
  revert word. induction s as [|c s IH]; intros word.
  - cbn. destruct word; reflexivity.
  - cbn [append lex_from]. destruct (is_word_char c); [apply IH|].
    assert (Hne : lex_from (s ++ ",") "" <> []).
    { intros E. specialize (IH ""). rewrite E in IH. discriminate. }
    rewrite app_assoc.
    rewrite (rest_of_last (lex_from (s ++ ",") "") _ TSemi); [apply IH | | exact Hne].
    now exists (flush word ++ punct c)%list.
Qed.

(** A text that ends in a comma is not a statement. *)
Lemma trailing_comma_malformed (sql : string) :
  StdString.back sql = Some ","%char -> well_formed sql = false.
Proof.
  intros Hback. unfold well_formed.
  destruct (parse sql) as [st|] eqn:E; [|reflexivity].
  exfalso. apply (parse_last sql st E).
  assert (Hs : exists s, sql = s ++ ",").
  { clear E. induction sql as [|c sql IH]; [discriminate|].
    destruct sql as [|c' sql'].
    - cbn in Hback. injection Hback as ->. now exists "".
    - destruct (IH Hback) as [s Hs]. exists (String c s). cbn [append].
      now rewrite <- Hs. }
  destruct Hs as [s ->]. apply lex_trailing_comma.
Qed.

End RecogniserFacts.

(* ===================================================================== *)
(** * The mapper's statement texts *)

Import StdString StdMap Sqlite Database SqlText Runs.

(** C1 (fails on the code).  For a non-empty field mapping [insert] does
    not build [INSERT INTO table (c1, c2, ...) VALUES (?, ?, ...)]: the
    text it prepares is [INSERT INTO table( c1,c2 VALUES (?, ?,] -- neither
    list is closed by a parenthesis (the code adds no closing parenthesis
    at all) and the text ends in a comma, so it is no statement whatever
    the names are.  Only the count of placeholders, one per key, is as
    documented. *)
Theorem insert_sql_lists_left_open {T : Type} (tableName : string)
  (fm : field_mapping T) :
  fm <> [] ->
  exists sql,
    insert_sql tableName fm = Some sql
    /\ sql = "INSERT INTO " ++ tableName ++ "( " ++ String.concat "," (keys fm)
              ++ " VALUES (" ++ String.concat " " (map (fun _ => "?,") fm)
    /\ back sql = Some ","%char
    /\ well_formed sql = false
    /\ count ")" sql = count ")" (tableName ++ String.concat "," (keys fm))
    /\ count "?" (String.concat " " (map (fun _ => "?,") fm)) = List.length fm
    /\ sql <> documented_insert tableName (keys fm).
Proof.
  intros Hfm. eexists. split; [apply StatementFacts.insert_sql_nonempty, Hfm|].
  split; [reflexivity|].
  assert (Hback : back ("INSERT INTO " ++ tableName ++ "( " ++ String.concat "," (keys fm)
                          ++ " VALUES (" ++ String.concat " " (map (fun _ => "?,") fm))
                  = Some ","%char).
  { repeat apply ShapeFacts.back_append_some.
    apply ShapeFacts.placeholders_back, Hfm. }
  split; [exact Hback|].
  split; [exact (RecogniserFacts.trailing_comma_malformed _ Hback)|].
  split; [|split].
  - rewrite !StdStringFacts.count_append.
    rewrite ShapeFacts.placeholders_count by reflexivity.
    cbn. lia.
  - apply ShapeFacts.placeholders_params.
  - intros E. rewrite E, ShapeFacts.documented_insert_back in Hback. discriminate.
Qed.

Lemma insert_sql_lists_left_open_witness :
  Examples.category_fields <> []
  /\ exists sql,
      insert_sql "category" Examples.category_fields = Some sql
      /\ sql = "INSERT INTO " ++ "category" ++ "( "
                ++ String.concat "," (keys Examples.category_fields)
                ++ " VALUES ("
                ++ String.concat " " (map (fun _ => "?,") Examples.category_fields)
      /\ back sql = Some ","%char
      /\ well_formed sql = false
      /\ count ")" sql
         = count ")" ("category" ++ String.concat "," (keys Examples.category_fields))
      /\ count "?" (String.concat " " (map (fun _ => "?,") Examples.category_fields))
         = List.length Examples.category_fields
      /\ sql <> documented_insert "category" (keys Examples.category_fields).
Proof.
  split.
  - vm_compute. discriminate.
  - apply (insert_sql_lists_left_open "category" Examples.category_fields).
    vm_compute. discriminate.
Defined.

(** [insert] on a category: the text it prepares, which the recogniser
    and the small store reject, next to the documented one. *)
Example insert_sql_category :
  insert_sql "category" Examples.category_fields
  = Some "INSERT INTO category( description,name VALUES (?, ?,"
  /\ well_formed "INSERT INTO category( description,name VALUES (?, ?," = false
  /\ documented_insert "category" (keys Examples.category_fields)
     = "INSERT INTO category (description, name) VALUES (?, ?)"
  /\ parse "INSERT INTO category (description, name) VALUES (?, ?)"
     = Some (StInsert "category" ["description"; "name"])
  /\ option_map fst
       (insert MiniSqlite.mini "category" Examples.tools Examples.category_fields
          Examples.initialised)
     = Some false.
Proof. vm_compute. repeat split. Qed.

(** C2 (fails on the code).  For a non-empty field mapping [update] does
    not build [UPDATE table SET c1 = ?, c2 = ?, ... WHERE id = ?]: each
    column name is followed by [?] alone, so the text is
    [UPDATE table SET c1?, c2? WHERE id = ?;], three characters short of
    the documented one for every column.  The binding half of the claim
    holds: when the store prepares the text, the extracted values are
    bound in traversal order at 1..n and the id at n + 1; when it does
    not, nothing is bound. *)
Theorem update_sql_drops_equals {store T : Type} (B : backend store)
  (tableName : string) (id : Z) (data : T) (fm : field_mapping T)
  (w : world store) :
  fm <> [] ->
  exists sql,
    update_sql tableName fm = Some sql
    /\ sql = "UPDATE " ++ tableName ++ " SET "
              ++ String.concat ", " (map (fun c => c ++ "?") (keys fm))
              ++ " WHERE id = ?;"
    /\ String.length sql + 3 * List.length fm
       = String.length (documented_update tableName (keys fm) ++ ";")
    /\ sql <> documented_update tableName (keys fm)
    /\ sql <> documented_update tableName (keys fm) ++ ";"
    /\ (exists r tail,
          update B tableName id data fm w = Some r
          /\ calls (snd r)
             = (calls w ++ Call_prepare_v2 sql
                  :: (if Z.eqb (fst (be_prepare B (db w) sql)) SQLITE_OK
                      then bind_calls SQLITE_STATIC data fm 1
                             ++ Call_bind_int (1 + Z.of_nat (List.length fm)) id
                             :: Call_step :: tail
                      else []))%list).
Proof.
  intros Hfm. eexists.
  split; [apply StatementFacts.update_sql_nonempty, Hfm|].
  split; [reflexivity|].
  assert (Hlen : String.length
                   ("UPDATE " ++ tableName ++ " SET "
                      ++ String.concat ", " (map (fun c => c ++ "?") (keys fm))
                      ++ " WHERE id = ?;")
                 + 3 * List.length fm
                 = String.length (documented_update tableName (keys fm) ++ ";")).
  { unfold documented_update. rewrite !StdStringFacts.length_append.
    rewrite <- ShapeFacts.assignments_length. unfold keys. rewrite length_map.
    cbn [String.length]. lia. }
  split; [exact Hlen|]. split; [|split].
  - intros E.
    assert (Hback : back ("UPDATE " ++ tableName ++ " SET "
                            ++ String.concat ", " (map (fun c => c ++ "?") (keys fm))
                            ++ " WHERE id = ?;") = Some ";"%char)
      by (repeat apply ShapeFacts.back_append_some; reflexivity).
    rewrite E, ShapeFacts.documented_update_back in Hback. discriminate.
  - intros E. rewrite E in Hlen. destruct fm; [congruence|]. cbn [List.length] in Hlen. lia.
  - unfold update.
    rewrite (StatementFacts.update_sql_nonempty tableName fm Hfm).
    destruct (Z.eqb (fst (be_prepare B (db w) _)) SQLITE_OK) eqn:Hprep.
    + rewrite (RunFacts.update_with_prepared B _ id data fm w Hprep).
      cbv zeta.
      destruct (Z.eqb (fst (be_step B _ _)) SQLITE_DONE);
        eexists; eexists; (split; [reflexivity|]); cbn [snd calls];
        rewrite <- !app_assoc; cbn [app]; rewrite <- ?app_assoc; cbn [app];
        reflexivity.
    + rewrite (RunFacts.update_with_prepare_failed B _ id data fm w Hprep).
      eexists. exists []. split; reflexivity.
Qed.

Lemma update_sql_drops_equals_witness :
  Examples.category_fields <> []
  /\ exists sql,
      update_sql "category" Examples.category_fields = Some sql
      /\ sql = "UPDATE " ++ "category" ++ " SET "
                ++ String.concat ", "
                     (map (fun c => c ++ "?") (keys Examples.category_fields))
                ++ " WHERE id = ?;"
      /\ String.length sql + 3 * List.length Examples.category_fields
         = String.length
             (documented_update "category" (keys Examples.category_fields) ++ ";")
      /\ sql <> documented_update "category" (keys Examples.category_fields)
      /\ sql <> documented_update "category" (keys Examples.category_fields) ++ ";"
      /\ (exists r tail,
            update MiniSqlite.mini "category" 1 Examples.tools
              Examples.category_fields Examples.initialised = Some r
            /\ calls (snd r)
               = (calls Examples.initialised
                    ++ Call_prepare_v2 sql
                    :: (if Z.eqb (fst (be_prepare MiniSqlite.mini
                                         (db Examples.initialised) sql)) SQLITE_OK
                        then bind_calls SQLITE_STATIC Examples.tools
                               Examples.category_fields 1
                               ++ Call_bind_int
                                    (1 + Z.of_nat
                                           (List.length Examples.category_fields)) 1
                               :: Call_step :: tail
                        else []))%list).
Proof.
  split.
  - vm_compute. discriminate.
  - apply (update_sql_drops_equals MiniSqlite.mini "category" 1 Examples.tools
             Examples.category_fields Examples.initialised).
    vm_compute. discriminate.
Defined.

(** [update] on a category: the text it prepares is rejected, the
    documented one is recognised; and with keys that carry their own
    equals sign the binding order is visible. *)
Example update_sql_category :
  update_sql "category" Examples.category_fields
  = Some "UPDATE category SET description?, name? WHERE id = ?;"
  /\ well_formed "UPDATE category SET description?, name? WHERE id = ?;" = false
  /\ documented_update "category" (keys Examples.category_fields)
     = "UPDATE category SET description = ?, name = ? WHERE id = ?"
  /\ parse "UPDATE category SET description = ?, name = ? WHERE id = ?"
     = Some (StUpdate "category" ["description"; "name"])
  /\ option_map fst
       (update MiniSqlite.mini "category" 1 Examples.tools Examples.category_fields
          Examples.stocked)
     = Some false
  /\ option_map (fun r => (fst r, calls (snd r)))
       (update MiniSqlite.mini "category" 1 Examples.power_tools
          Examples.category_assignments Examples.stocked)
     = Some (true,
             [ Call_prepare_v2 "UPDATE category SET description =?, name =? WHERE id = ?;";
               Call_bind_text 1 "Drills and saws" SQLITE_STATIC;
               Call_bind_text 2 "Power tools" SQLITE_STATIC;
               Call_bind_int 3 1; Call_step; Call_changes; Call_finalize ]).
Proof. vm_compute. repeat split. Qed.

(** C5 (fails on the code).  On the empty field mapping neither builder
    applies [pop_back] to an empty string -- both are defined for every
    mapping -- but the texts are not statements: [insert] prepares
    [INSERT INTO table( VALUES ] and [update], whose two [pop_back] calls
    eat into the keyword, prepares [UPDATE table SE WHERE id = ?;]. *)
Theorem empty_mapping_texts {T : Type} (tableName : string) :
  insert_sql tableName ([] : field_mapping T)
  = Some ("INSERT INTO " ++ tableName ++ "( VALUES ")
  /\ update_sql tableName ([] : field_mapping T)
     = Some ("UPDATE " ++ tableName ++ " SE WHERE id = ?;")
  /\ (forall fm : field_mapping T,
        insert_sql tableName fm <> None /\ update_sql tableName fm <> None)
  /\ well_formed ("INSERT INTO " ++ "category" ++ "( VALUES ") = false
  /\ well_formed ("UPDATE " ++ "category" ++ " SE WHERE id = ?;") = false.
Proof.
  split; [apply StatementFacts.insert_sql_empty|].
  split; [apply StatementFacts.update_sql_empty|].
  split; [|split; vm_compute; reflexivity].
  intros fm. split.
  - apply StatementFacts.insert_sql_defined.
  - apply StatementFacts.update_sql_defined.
Qed.


(* ===================================================================== *)
(** * Schema initialisation *)

(** C7.  Whatever the store answers, [init] executes six statements in
    this order: the pragma that turns foreign-key enforcement on, then the
    creation of category, suppliers, item, user and transaction_records.
    A failing statement puts one line on [std::cerr] and the following
    statements are executed all the same -- as on a store that rejects
    every one of them. *)
Theorem init_attempts_every_statement {store : Type} (B : backend store)
  (w : world store) :
  calls (snd (init B w))
  = (calls w ++ [ Call_exec foreignKeySupport; Call_exec categoryTableQuery;
                  Call_exec supplierTableQuery; Call_exec itemTableQuery;
                  Call_exec userTableQuery; Call_exec transactionTableQuery ])%list
  /\ parse foreignKeySupport = Some StPragmaForeignKeys
  /\ map creates_if_absent
       [ categoryTableQuery; supplierTableQuery; itemTableQuery; userTableQuery;
         transactionTableQuery ]
     = [ Some "category"; Some "suppliers"; Some "item"; Some "user";
         Some "transaction_records" ]
  /\ cerr (snd (init B w)) = (cerr w ++ failures B (db w) init_statements)%list
  /\ db (snd (init B w)) = exec_all B (db w) init_statements
  /\ cerr (snd (init Examples.refusing Examples.nowhere))
     = [ "Error enabling foreign keys: disk I/O error";
         "Error Creating Category Table: disk I/O error";
         "Error Creating Supplier Table: disk I/O error";
         "Error Creating Items Table: disk I/O error";
         "Error Creating User Table: disk I/O error";
         "Error Creating Transaction Table: disk I/O error" ]
  /\ List.length (calls (snd (init Examples.refusing Examples.nowhere))) = 6.
Proof.
  rewrite (InitFacts.init_run B w). cbn [snd calls cerr db].
  split; [reflexivity|].
  repeat split; vm_compute; reflexivity.
Qed.

(* ===================================================================== *)
(** * remove *)

(** C3.  [remove] prepares [DELETE FROM table WHERE id = ?], binds the id
    as parameter 1, steps and finalizes; its result is false exactly when
    the store rejects the statement, at preparation or at the step.  It
    never asks for the change count, so a missing id and a deleted row
    both give true; a row still referred to is refused by the store and
    gives false with nothing deleted. *)
Theorem remove_fails_exactly_on_rejection {store : Type} (B : backend store)
  (tableName : string) (id : Z) (w : world store) :
  let prepared := be_prepare B (db w) (documented_delete tableName) in
  let stepped :=
    be_step B (snd prepared)
      {| stmt_sql := documented_delete tableName;
         stmt_params := [(1%Z, SqlInteger id)] |} in
  remove_sql tableName = documented_delete tableName
  /\ (fst (remove B tableName id w) = false
      <-> fst prepared <> SQLITE_OK \/ fst stepped <> SQLITE_DONE)
  /\ calls (snd (remove B tableName id w))
     = (calls w ++ Call_prepare_v2 (documented_delete tableName)
          :: (if Z.eqb (fst prepared) SQLITE_OK
              then [Call_bind_int 1 id; Call_step; Call_finalize] else []))%list
  /\ (let r := remove MiniSqlite.mini "category" 2 Examples.stocked in
      fst r = true
      /\ MiniSqlite.rows_of "category" (db (snd r))
         = MiniSqlite.rows_of "category" (db Examples.stocked))
  /\ (let r := remove MiniSqlite.mini "item" 1 Examples.stocked in
      fst r = true /\ MiniSqlite.rows_of "item" (db (snd r)) = [])
  /\ (let r := remove MiniSqlite.mini "category" 1 Examples.stocked in
      fst r = false
      /\ MiniSqlite.rows_of "category" (db (snd r))
         = MiniSqlite.rows_of "category" (db Examples.stocked)
      /\ MiniSqlite.rows_of "item" (db (snd r))
         = MiniSqlite.rows_of "item" (db Examples.stocked)).
Proof.
  assert (Hsql : remove_sql tableName = documented_delete tableName)
    by apply StdStringFacts.append_assoc.
  cbv zeta. split; [exact Hsql|].
  rewrite (InitFacts.remove_run B tableName id w). cbv zeta. rewrite Hsql.
  split; [|split].
  - destruct (Z.eqb (fst (be_prepare B (db w) (documented_delete tableName)))
                SQLITE_OK) eqn:Hp; cbn [fst].
    + apply Z.eqb_eq in Hp. rewrite Z.eqb_neq. split.
      * intros H. now right.
      * intros [H|H]; [contradiction | exact H].
    + apply Z.eqb_neq in Hp. split; [intros _; now left | reflexivity].
  - destruct (Z.eqb (fst (be_prepare B (db w) (documented_delete tableName)))
                SQLITE_OK); reflexivity.
  - vm_compute. repeat split.
Qed.

(* ===================================================================== *)
(** * Binding *)

Module BindingFacts.

Lemma split_not_nil (sep : ascii) (s : string) : split sep s <> [].
Proof.
  induction s as [|c s IH]; cbn [split]; [discriminate|].
  destruct (Ascii.eqb c sep); [discriminate|].
  destruct (split sep s); discriminate.
Qed.




Section Params.
Context {T : Type} (data : T).






Lemma bind_calls_prepare_nothing (d : destructor) (fm : field_mapping T) (first : Z) :
  prepared (bind_calls d data fm first) = [].
Proof.
  revert first. induction fm as [|[c g] fm IH]; intros first;
    cbn [bind_calls]; [reflexivity|].
  unfold prepared in *. cbn [flat_map]. rewrite IH.
  destruct (g data); reflexivity.
Qed.

End Params.





End BindingFacts.




(** A stock record run through [insert] on a store that prepares
    anything: three columns, three bindings, one of each kind, in key
    order. *)
Example stock_bindings :
  keys Examples.stock_fields = ["name"; "quantity"; "unit_price"]
  /\ option_map (fun r => calls (snd r))
       (insert Examples.recording "item" Examples.hammers Examples.stock_fields
          Examples.blank)
     = Some [ Call_prepare_v2 "INSERT INTO item( name,quantity,unit_price VALUES (?, ?, ?,";
              Call_bind_text 1 "Hammer" SQLITE_TRANSIENT; Call_bind_int 2 12;
              Call_bind_double 3 (Examples.stock_unit_price Examples.hammers);
              Call_step; Call_finalize ].
Proof. vm_compute. repeat split. Qed.



(* ===================================================================== *)
(** * What the statement text depends on *)

Module TextFacts.

Lemma placeholders_of_keys {T : Type} (fm : field_mapping T) :
  map (fun _ : string * (T -> variant) => "?,") fm
  = map (fun _ : string => "?,") (keys fm).
Proof. unfold keys. now rewrite map_map. Qed.

(** The texts are functions of the table name and the key sequence. *)
Lemma insert_sql_of_keys {T1 T2 : Type} (tableName : string)
  (fm1 : field_mapping T1) (fm2 : field_mapping T2) :
  keys fm1 = keys fm2 -> insert_sql tableName fm1 = insert_sql tableName fm2.
Proof.
  intros H. unfold insert_sql.
  rewrite !StatementFacts.insert_loop_appends, !placeholders_of_keys, H.
  reflexivity.
Qed.

Lemma update_sql_of_keys {T1 T2 : Type} (tableName : string)
  (fm1 : field_mapping T1) (fm2 : field_mapping T2) :
  keys fm1 = keys fm2 -> update_sql tableName fm1 = update_sql tableName fm2.
Proof.
  intros H. unfold update_sql.
  rewrite !StatementFacts.update_loop_appends, H. reflexivity.
Qed.

Lemma skipn_past {A : Type} (l more : list A) :
  skipn (List.length l) (l ++ more) = more.
Proof. induction l as [|a l IH]; [reflexivity | exact IH]. Qed.

Lemma prepared_app (l1 l2 : list api_call) :
  prepared (l1 ++ l2) = (prepared l1 ++ prepared l2)%list.
Proof. unfold prepared. apply flat_map_app. Qed.

Section OneText.
Context {store T : Type} (B : backend store).

(** A call of [insert] or [update] prepares its text and no other. *)
Lemma insert_with_prepares (sql : string) (data : T) (fm : field_mapping T)
  (w : world store) :
  prepared (skipn (List.length (calls w)) (calls (snd (insert_with B sql data fm w))))
  = [sql].
Proof.
  destruct (Z.eqb (fst (be_prepare B (db w) sql)) SQLITE_OK) eqn:Hp.
  - rewrite (RunFacts.insert_with_prepared B sql data fm w Hp). cbv zeta.
    destruct (Z.eqb (fst (be_step B _ _)) SQLITE_DONE); cbn [snd calls];
      rewrite skipn_past;
      change (Call_prepare_v2 sql :: ?l) with ([Call_prepare_v2 sql] ++ l)%list;
      rewrite !prepared_app, BindingFacts.bind_calls_prepare_nothing; reflexivity.
  - rewrite (RunFacts.insert_with_prepare_failed B sql data fm w Hp).
    cbn [snd calls]. now rewrite skipn_past.
Qed.

Lemma update_with_prepares (sql : string) (id : Z) (data : T)
  (fm : field_mapping T) (w : world store) :
  prepared (skipn (List.length (calls w)) (calls (snd (update_with B sql id data fm w))))
  = [sql].
Proof.
  destruct (Z.eqb (fst (be_prepare B (db w) sql)) SQLITE_OK) eqn:Hp.
  - rewrite (RunFacts.update_with_prepared B sql id data fm w Hp). cbv zeta.
    destruct (Z.eqb (fst (be_step B _ _)) SQLITE_DONE); cbn [snd calls];
      rewrite <- app_assoc, skipn_past;
      change (Call_prepare_v2 sql :: ?l) with ([Call_prepare_v2 sql] ++ l)%list;
      rewrite !prepared_app, BindingFacts.bind_calls_prepare_nothing; reflexivity.
  - rewrite (RunFacts.update_with_prepare_failed B sql id data fm w Hp).
    cbn [snd calls]. now rewrite skipn_past.
Qed.

End OneText.

End TextFacts.

(** C10.  The text [insert] and [update] hand to the store is fixed by the
    table name and the key set of the field mapping.  Two calls on the
    same table whose maps hold the same keys prepare the same text,
    character for character, whatever the record types, the records, the
    getters, the ids, the stores and their states are; the records reach
    the store through bind calls only. *)
Theorem sql_text_fixed_by_table_and_keys {store1 store2 T1 T2 : Type}
  (B1 : backend store1) (B2 : backend store2) (tableName : string)
  (fm1 : field_mapping T1) (fm2 : field_mapping T2)
  (data1 : T1) (data2 : T2) (id1 id2 : Z)
  (w1 : world store1) (w2 : world store2) :
  ok fm1 -> ok fm2 ->
  (forall k, In k (keys fm1) <-> In k (keys fm2)) ->
  insert_sql tableName fm1 = insert_sql tableName fm2
  /\ update_sql tableName fm1 = update_sql tableName fm2
  /\ (exists sql r1 r2,
        insert B1 tableName data1 fm1 w1 = Some r1
        /\ insert B2 tableName data2 fm2 w2 = Some r2
        /\ prepared (skipn (List.length (calls w1)) (calls (snd r1))) = [sql]
        /\ prepared (skipn (List.length (calls w2)) (calls (snd r2))) = [sql])
  /\ (exists sql r1 r2,
        update B1 tableName id1 data1 fm1 w1 = Some r1
        /\ update B2 tableName id2 data2 fm2 w2 = Some r2
        /\ prepared (skipn (List.length (calls w1)) (calls (snd r1))) = [sql]
        /\ prepared (skipn (List.length (calls w2)) (calls (snd r2))) = [sql]).
Proof.
  intros Hok1 Hok2 Hsame.
  assert (Hkeys : keys fm1 = keys fm2)
    by (apply StdMapFacts.sorted_keys_unique; assumption).
  assert (Hi := TextFacts.insert_sql_of_keys tableName fm1 fm2 Hkeys).
  assert (Hu := TextFacts.update_sql_of_keys tableName fm1 fm2 Hkeys).
  split; [exact Hi|]. split; [exact Hu|]. split.
  - unfold insert. rewrite <- Hi.
    destruct (insert_sql tableName fm1) as [sql|] eqn:E;
      [|exfalso; exact (StatementFacts.insert_sql_defined tableName fm1 E)].
    exists sql. eexists. eexists. split; [reflexivity|]. split; [reflexivity|].
    split; apply TextFacts.insert_with_prepares.
  - unfold update. rewrite <- Hu.
    destruct (update_sql tableName fm1) as [sql|] eqn:E;
      [|exfalso; exact (StatementFacts.update_sql_defined tableName fm1 E)].
    exists sql. eexists. eexists. split; [reflexivity|]. split; [reflexivity|].
    split; apply TextFacts.update_with_prepares.
Qed.

Lemma sql_text_fixed_by_table_and_keys_witness :
  ok Examples.category_fields /\ ok Examples.stock_labels
  /\ (forall k, In k (keys Examples.category_fields)
                <-> In k (keys Examples.stock_labels))
  /\ insert_sql "category" Examples.category_fields
     = insert_sql "category" Examples.stock_labels
  /\ update_sql "category" Examples.category_fields
     = update_sql "category" Examples.stock_labels
  /\ (exists sql r1 r2,
        insert MiniSqlite.mini "category" Examples.tools Examples.category_fields
          Examples.stocked = Some r1
        /\ insert Examples.refusing "category" Examples.hammers Examples.stock_labels
             Examples.nowhere = Some r2
        /\ prepared (skipn (List.length (calls Examples.stocked)) (calls (snd r1)))
           = [sql]
        /\ prepared (skipn (List.length (calls Examples.nowhere)) (calls (snd r2)))
           = [sql])
  /\ (exists sql r1 r2,
        update MiniSqlite.mini "category" 1 Examples.tools Examples.category_fields
          Examples.stocked = Some r1
        /\ update Examples.refusing "category" 7 Examples.hammers Examples.stock_labels
             Examples.nowhere = Some r2
        /\ prepared (skipn (List.length (calls Examples.stocked)) (calls (snd r1)))
           = [sql]
        /\ prepared (skipn (List.length (calls Examples.nowhere)) (calls (snd r2)))
           = [sql]).
Proof.
  assert (H1 : ok Examples.category_fields)
    by (unfold ok; vm_compute; repeat constructor).
  assert (H2 : ok Examples.stock_labels)
    by (unfold ok; vm_compute; repeat constructor).
  assert (H3 : forall k, In k (keys Examples.category_fields)
                         <-> In k (keys Examples.stock_labels))
    by (intros k; vm_compute; tauto).
  split; [exact H1|]. split; [exact H2|]. split; [exact H3|].
  exact (sql_text_fixed_by_table_and_keys MiniSqlite.mini Examples.refusing "category"
           Examples.category_fields Examples.stock_labels Examples.tools
           Examples.hammers 1 7 Examples.stocked Examples.nowhere H1 H2 H3).
Defined.

(* ===================================================================== *)
(** * The small store keeps SQLite's contracts *)

Module MiniFacts.
Import MiniSqlite.

Lemma find_table_name (name : string) (st : store) (t : table) :
  find_table name st = Some t -> tbl_name t = name.
Proof.
  unfold find_table. intros H. apply find_some in H.
  now apply String.eqb_eq.
Qed.

Lemma find_table_listed (name : string) (st : store) (t : table) :
  find_table name st = Some t -> In name (table_names st).
Proof.
  intros H. rewrite <- (find_table_name _ _ _ H).
  unfold find_table in H. apply find_some in H.
  unfold table_names. apply in_map, H.
Qed.

Lemma listed_find_table (name : string) (st : store) :
  In name (table_names st) -> exists t, find_table name st = Some t.
Proof.
  unfold table_names, find_table. intros H.
  apply in_map_iff in H. destruct H as [t [Hn Ht]].
  destruct (find (fun t0 => String.eqb (tbl_name t0) name) (tables st)) eqn:E;
    [eauto|].
  exfalso. apply (find_none _ _ E) in Ht. rewrite Hn, String.eqb_refl in Ht.
  discriminate.
Qed.

(** Writing back the table that was found changes nothing. *)
Lemma put_found (name : string) (st : store) (t : table) :
  find_table name st = Some t -> put_table t (tables st) = tables st.
Proof.
  unfold find_table. induction (tables st) as [|t' ts IH]; cbn [find put_table];
    [discriminate|].
  destruct (String.eqb (tbl_name t') name) eqn:E.
  - intros H. injection H as ->. now rewrite String.eqb_refl.
  - intros H. assert (Hn := H). apply find_some in Hn. destruct Hn as [_ Hn].
    apply String.eqb_eq in Hn. rewrite Hn, E. f_equal. exact (IH H).
Qed.

Lemma same_table (t : table) :
  {| tbl_name := tbl_name t; tbl_foreign_keys := tbl_foreign_keys t;
     tbl_next_id := tbl_next_id t; tbl_rows := tbl_rows t |} = t.
Proof. now destruct t. Qed.

Lemma no_row_filter (id : Z) (rows : list row) :
  filter (fun r : row => Z.eqb (fst r) id) rows = [] ->
  filter (fun r : row => negb (Z.eqb (fst r) id)) rows = rows
  /\ forall f : row -> row,
       map (fun r : row => if Z.eqb (fst r) id then f r else r) rows = rows.
Proof.
  induction rows as [|r rows IH]; cbn [filter map]; [now split|].
  destruct (Z.eqb (fst r) id); cbn [negb]; [discriminate|].
  intros H. destruct (IH H) as [H1 H2]. split.
  - now rewrite H1.
  - intros f. now rewrite H2.
Qed.

Lemma no_row_counted (id : Z) (t : table) :
  count_rows id t = 0%Z ->
  filter (fun r : row => Z.eqb (fst r) id) (tbl_rows t) = [].
Proof.
  unfold count_rows. intros H.
  apply length_zero_iff_nil, Nat2Z.inj. exact H.
Qed.

Lemma prepare_keeps_tables (st : store) (sql : string) :
  tables (snd (prepare st sql)) = tables st.
Proof.
  unfold prepare.
  destruct (SqlText.parse sql) as [s|]; [|reflexivity].
  destruct (statement_table s) as [t|]; [|reflexivity].
  destruct (find_table t st); reflexivity.
Qed.

(** A step that leaves the change counter at zero leaves every table as
    it was. *)
Lemma step_without_changes (st : store) (stmt : sqlite3_stmt) :
  changes (snd (step st stmt)) = 0%Z ->
  tables (snd (step st stmt)) = tables st.
Proof.
  unfold step.
  destruct (SqlText.parse (stmt_sql stmt)) as [[name cols|name cols|name|? ? ?|]|];
    try reflexivity.
  - destruct (find_table name st) as [t|]; [|reflexivity].
    destruct (foreign_keys_on st && negb (references_ok st t _));
      [reflexivity | discriminate].
  - destruct (find_table name st) as [t|] eqn:Ef;
      [|reflexivity].
    destruct (param_at _ _) as [| id | | |];
      try (intros _; cbn [done snd tables]; exact (put_found _ _ _ Ef)).
    destruct (has_row id t && foreign_keys_on st && negb (references_ok st t _));
      [reflexivity|].
    cbn [done snd changes tables]. intros H.
    destruct (no_row_filter id (tbl_rows t) (no_row_counted id t H)) as [_ Hmap].
    rewrite Hmap, same_table. exact (put_found _ _ _ Ef).
  - destruct (find_table name st) as [t|] eqn:Ef;
      [|reflexivity].
    destruct (param_at _ _) as [| id | | |];
      try (intros _; cbn [done snd tables]; exact (put_found _ _ _ Ef)).
    destruct (has_row id t && foreign_keys_on st && referenced st name id);
      [reflexivity|].
    cbn [done snd changes tables]. intros H.
    destruct (no_row_filter id (tbl_rows t) (no_row_counted id t H)) as [Hfilter _].
    rewrite Hfilter, same_table. exact (put_found _ _ _ Ef).
Qed.

Lemma mini_changes_contract : changes_contract mini tables.
Proof.
  constructor.
  - exact prepare_keeps_tables.
  - exact step_without_changes.
Qed.

Lemma creates_if_absent_parse (sql name : string) :
  SqlText.creates_if_absent sql = Some name ->
  exists body, SqlText.parse sql = Some (SqlText.StCreateTable true name body).
Proof.
  unfold SqlText.creates_if_absent.
  destruct (SqlText.parse sql) as [[| | |[|] t body|]|]; try discriminate.
  intros H. injection H as ->. eauto.
Qed.

Lemma mini_schema_contract : schema_contract mini table_names.
Proof.
  constructor.
  - intros st. cbn [mini be_exec]. unfold exec.
    replace (SqlText.parse foreignKeySupport) with (Some SqlText.StPragmaForeignKeys)
      by (vm_compute; reflexivity).
    split; reflexivity.
  - intros st sql name [_ Hc] Hin. cbn [mini be_exec]. unfold exec.
    destruct (creates_if_absent_parse _ _ Hc) as [body ->].
    destruct (listed_find_table _ _ Hin) as [t ->]. split; reflexivity.
  - intros st sql name [_ Hc]. cbn [mini be_exec]. unfold exec.
    destruct (creates_if_absent_parse _ _ Hc) as [body ->].
    destruct (find_table name st) as [t|] eqn:Ef; cbn [fst snd]; intros _.
    + exact (find_table_listed _ _ _ Ef).
    + unfold table_names. cbn [tables]. rewrite map_app. apply in_or_app.
      right. now left.
  - intros st sql name t [_ Hc] Hin. cbn [mini be_exec]. unfold exec.
    destruct (creates_if_absent_parse _ _ Hc) as [body ->].
    destruct (find_table name st) as [t'|]; cbn [snd]; [exact Hin|].
    unfold table_names in *. cbn [tables]. rewrite map_app. apply in_or_app.
    now left.
Qed.

End MiniFacts.

(* ===================================================================== *)
(** * update on an id that does not exist *)

(** C4.  When the text is prepared and the step completes but no row was
    changed, [update] writes the warning to [std::cerr] -- that line and
    no other -- and returns true; it leaves the store as the step left
    it, which, no row having changed, holds what it held before the
    call. *)
Theorem update_of_missing_id_reports_success {store T R : Type}
  (B : backend store) (rows : store -> R) (tableName : string) (id : Z)
  (data : T) (fm : field_mapping T) (w : world store) (sql : string) :
  changes_contract B rows ->
  update_sql tableName fm = Some sql ->
  fst (be_prepare B (db w) sql) = SQLITE_OK ->
  let stepped :=
    be_step B (snd (be_prepare B (db w) sql))
      {| stmt_sql := sql;
         stmt_params :=
           (bound_params SQLITE_STATIC data fm 1
              ++ [((1 + Z.of_nat (List.length fm))%Z, SqlInteger id)])%list |} in
  fst stepped = SQLITE_DONE ->
  be_changes B (snd stepped) = 0%Z ->
  exists w',
    update B tableName id data fm w = Some (true, w')
    /\ cerr w' = (cerr w ++ ["No rows were updated. Check if the ID exists."])%list
    /\ db w' = snd stepped
    /\ rows (db w') = rows (db w).
Proof.
  intros [Hprepare Hstep] Hsql Hp. cbv zeta. intros Hdone Hzero.
  unfold update. rewrite Hsql.
  rewrite (RunFacts.update_with_prepared B sql id data fm w)
    by (rewrite Hp; reflexivity).
  cbv zeta. rewrite Hdone, Hzero. cbn [Z.eqb SQLITE_DONE Pos.eqb].
  eexists. split; [reflexivity|]. cbn [cerr db].
  split; [reflexivity|]. split; [reflexivity|].
  rewrite (Hstep _ _ Hzero). apply Hprepare.
Qed.

Lemma update_of_missing_id_reports_success_witness :
  changes_contract MiniSqlite.mini MiniSqlite.tables
  /\ update_sql "category" Examples.category_assignments
     = Some "UPDATE category SET description =?, name =? WHERE id = ?;"
  /\ exists w',
      update MiniSqlite.mini "category" 7 Examples.power_tools
        Examples.category_assignments Examples.stocked = Some (true, w')
      /\ cerr w'
         = (cerr Examples.stocked
              ++ ["No rows were updated. Check if the ID exists."])%list
      /\ db w'
         = snd (be_step MiniSqlite.mini
                  (snd (be_prepare MiniSqlite.mini (db Examples.stocked)
                          "UPDATE category SET description =?, name =? WHERE id = ?;"))
                  {| stmt_sql :=
                       "UPDATE category SET description =?, name =? WHERE id = ?;";
                     stmt_params :=
                       (bound_params SQLITE_STATIC Examples.power_tools
                          Examples.category_assignments 1
                          ++ [((1 + Z.of_nat
                                      (List.length Examples.category_assignments))%Z,
                               SqlInteger 7)])%list |})
      /\ MiniSqlite.tables (db w') = MiniSqlite.tables (db Examples.stocked).
Proof.
  split; [exact MiniFacts.mini_changes_contract|].
  split; [vm_compute; reflexivity|].
  apply (update_of_missing_id_reports_success MiniSqlite.mini MiniSqlite.tables
           "category" 7 Examples.power_tools Examples.category_assignments
           Examples.stocked
           "UPDATE category SET description =?, name =? WHERE id = ?;").
  - exact MiniFacts.mini_changes_contract.
  - vm_compute. reflexivity.
  - vm_compute. reflexivity.
  - vm_compute. reflexivity.
  - vm_compute. reflexivity.
Defined.

(** The two outcomes the caller cannot tell apart: an update of the
    category held and an update of a missing id both return true; only
    the first changes the row -- to whatever text the pointers given
    with [SQLITE_STATIC] lead to at the step -- only the second logs. *)
Example update_found_and_missing :
  option_map (fun r => (fst r, cerr (snd r),
                        MiniSqlite.rows_of "category" (db (snd r))))
    (update MiniSqlite.mini "category" 1 Examples.power_tools
       Examples.category_assignments Examples.stocked)
  = Some (true, [],
          [(1%Z, [ ("description", SqlStaticText); ("name", SqlStaticText) ])])
  /\ option_map (fun r => (fst r, cerr (snd r),
                           MiniSqlite.rows_of "category" (db (snd r))))
       (update MiniSqlite.mini "category" 7 Examples.power_tools
          Examples.category_assignments Examples.stocked)
     = Some (true, ["No rows were updated. Check if the ID exists."],
             [(1%Z, [ ("name", SqlText "Tools");
                      ("description", SqlText "Hand tools") ])]).
Proof. vm_compute. split; reflexivity. Qed.

(* ===================================================================== *)
(** * init twice *)

Module IdempotenceFacts.

Section Contract.
Context {store : Type} (B : backend store) (tables_of : store -> list string).
Hypothesis contract : schema_contract B tables_of.

(** A run of creations that reported nothing keeps the tables there were
    and leaves every table it names. *)
Lemma creations_leave_tables (statements : list (string * string)) (st : store) :
  Forall (fun s => exists name, creates (fst s) name) statements ->
  failures B st statements = [] ->
  (forall t, In t (tables_of st) -> In t (tables_of (exec_all B st statements)))
  /\ (forall s name, In s statements -> creates (fst s) name ->
                     In name (tables_of (exec_all B st statements))).
Proof.
  revert st. induction statements as [|[sql what] rest IH]; intros st Hall Hquiet.
  - split; [auto | intros s name []].
  - inversion Hall as [|? ? [name Hname] Hrest]; subst. cbn [fst] in Hname.
    cbn [failures] in Hquiet. apply app_eq_nil in Hquiet.
    destruct Hquiet as [Hrc Hquiet]. apply InitFacts.report_nil in Hrc.
    destruct (IH _ Hrest Hquiet) as [Hkeep Hnamed].
    cbn [exec_all]. split.
    + intros t Ht. apply Hkeep.
      exact (create_keeps B tables_of contract st sql name t Hname Ht).
    + intros s name' [<-|Hs] Hs'.
      * cbn [fst] in Hs'. apply Hkeep.
        exact (create_absent B tables_of contract st sql name' Hs' Hrc).
      * exact (Hnamed s name' Hs Hs').
Qed.

(** A run of creations over tables that all exist reports nothing and
    changes no table. *)
Lemma creations_over_tables (statements : list (string * string)) (st : store) :
  Forall (fun s => exists name, creates (fst s) name
                                /\ In name (tables_of st)) statements ->
  failures B st statements = []
  /\ tables_of (exec_all B st statements) = tables_of st.
Proof.
  revert st. induction statements as [|[sql what] rest IH]; intros st Hall.
  - split; reflexivity.
  - inversion Hall as [|? ? [name [Hname Hin]] Hrest]; subst. cbn [fst] in Hname.
    destruct (create_present B tables_of contract st sql name Hname Hin)
      as [Hrc Hsame].
    assert (Hrest' : Forall (fun s => exists name0,
                                 creates (fst s) name0
                                 /\ In name0 (tables_of (snd (be_exec B st sql))))
                       rest).
    { eapply Forall_impl; [|exact Hrest].
      intros s [n [Hn Hi]]. exists n. rewrite Hsame. now split. }
    destruct (IH _ Hrest') as [Hquiet Htables].
    cbn [failures exec_all]. rewrite Hrc, Hquiet, Htables, Hsame. now split.
Qed.

End Contract.

Lemma creations_named :
  Forall (fun s => exists name, creates (fst s) name)
    creation_statements.
Proof.
  apply Forall_forall. intros s Hs.
  assert (Hin : In (fst s) (map fst creation_statements)) by now apply in_map.
  destruct Hs as [<-|[<-|[<-|[<-|[<-|[]]]]]]; eexists; (split; [exact Hin|]);
    vm_compute; reflexivity.
Qed.

End IdempotenceFacts.

(** C8.  Each of the five creation texts of [init] is one
    [CREATE TABLE IF NOT EXISTS] statement and nothing more.  On a store
    that keeps SQLite's contract for the six texts of [init], running
    [init] again after a run that reported nothing reports nothing either
    and leaves the list of tables as it was, the five tables among them:
    each creation finds its table in place. *)
Theorem init_twice_is_quiet {store : Type} (B : backend store)
  (tables_of : store -> list string) (w : world store) :
  schema_contract B tables_of ->
  cerr (snd (init B w)) = cerr w ->
  let w1 := snd (init B w) in
  let w2 := snd (init B w1) in
  cerr w2 = cerr w1
  /\ tables_of (db w2) = tables_of (db w1)
  /\ Forall (fun name => In name (tables_of (db w1)))
       ["category"; "suppliers"; "item"; "user"; "transaction_records"]
  /\ map creates_if_absent (map fst creation_statements)
     = [ Some "category"; Some "suppliers"; Some "item"; Some "user";
         Some "transaction_records" ].
Proof.
  intros contract Hquiet. cbv zeta.
  rewrite (InitFacts.init_run B (snd (init B w))).
  rewrite (InitFacts.init_run B w) in *. cbn [snd cerr db] in *.
  assert (Hnone : failures B (db w) init_statements = []).
  { apply (app_inv_head (cerr w)). now rewrite app_nil_r. }
  unfold init_statements in *. cbn [failures exec_all] in *.
  apply app_eq_nil in Hnone. destruct Hnone as [_ Hcreated].
  destruct (IdempotenceFacts.creations_leave_tables B tables_of contract
              creation_statements _ IdempotenceFacts.creations_named Hcreated)
    as [_ Hnamed].
  set (st1 := exec_all B (snd (be_exec B (db w) foreignKeySupport))
                creation_statements) in *.
  destruct (pragma_succeeds B tables_of contract st1) as [Hrc Hsame].
  assert (Hfive : Forall (fun name => In name (tables_of st1))
                    ["category"; "suppliers"; "item"; "user";
                     "transaction_records"]).
  { repeat constructor.
    - apply (Hnamed (categoryTableQuery, "Error Creating Category Table: "));
        [cbn; tauto | split; [cbn; tauto | vm_compute; reflexivity]].
    - apply (Hnamed (supplierTableQuery, "Error Creating Supplier Table: "));
        [cbn; tauto | split; [cbn; tauto | vm_compute; reflexivity]].
    - apply (Hnamed (itemTableQuery, "Error Creating Items Table: "));
        [cbn; tauto | split; [cbn; tauto | vm_compute; reflexivity]].
    - apply (Hnamed (userTableQuery, "Error Creating User Table: "));
        [cbn; tauto | split; [cbn; tauto | vm_compute; reflexivity]].
    - apply (Hnamed (transactionTableQuery, "Error Creating Transaction Table: "));
        [cbn; tauto | split; [cbn; tauto | vm_compute; reflexivity]]. }
  assert (Hall : Forall (fun s => exists name,
                             creates (fst s) name
                             /\ In name (tables_of
                                           (snd (be_exec B st1 foreignKeySupport))))
                   creation_statements).
  { rewrite Hsame. apply Forall_forall. intros s Hs.
    pose proof IdempotenceFacts.creations_named as Hc.
    rewrite Forall_forall in Hc. destruct (Hc s Hs) as [name Hname].
    exists name. split; [exact Hname|]. exact (Hnamed s name Hs Hname). }
  destruct (IdempotenceFacts.creations_over_tables B tables_of contract _ _ Hall)
    as [Hquiet2 Htables].
  rewrite Hrc, Hquiet2, Htables, Hsame.
  split; [now rewrite app_nil_r|]. split; [reflexivity|].
  split; [exact Hfive | vm_compute; reflexivity].
Qed.

Lemma init_twice_is_quiet_witness :
  schema_contract MiniSqlite.mini MiniSqlite.table_names
  /\ cerr (snd (init MiniSqlite.mini MiniSqlite.fresh)) = cerr MiniSqlite.fresh
  /\ (let w1 := snd (init MiniSqlite.mini MiniSqlite.fresh) in
      let w2 := snd (init MiniSqlite.mini w1) in
      cerr w2 = cerr w1
      /\ MiniSqlite.table_names (db w2) = MiniSqlite.table_names (db w1)
      /\ Forall (fun name => In name (MiniSqlite.table_names (db w1)))
           ["category"; "suppliers"; "item"; "user"; "transaction_records"]
      /\ map creates_if_absent (map fst creation_statements)
         = [ Some "category"; Some "suppliers"; Some "item"; Some "user";
             Some "transaction_records" ]).
Proof.
  split; [exact MiniFacts.mini_schema_contract|].
  split; [vm_compute; reflexivity|].
  apply (init_twice_is_quiet MiniSqlite.mini MiniSqlite.table_names MiniSqlite.fresh).
  - exact MiniFacts.mini_schema_contract.
  - vm_compute. reflexivity.
Defined.

(** On the small store the second [init] finds the five tables and
    leaves them, and the whole store, as they were. *)
Example init_twice_on_the_small_store :
  MiniSqlite.table_names (db Examples.initialised)
  = ["category"; "suppliers"; "item"; "user"; "transaction_records"]
  /\ db (snd (init MiniSqlite.mini Examples.initialised)) = db Examples.initialised
  /\ cerr (snd (init MiniSqlite.mini Examples.initialised)) = [].
Proof. vm_compute. repeat split. Qed.

(* ===================================================================== *)
(** * Success and failure of insert and update *)

(** X1.  [insert] returns true exactly when the store prepares the text
    and the step completes; a failed preparation and a failed step each
    put one line on [std::cerr], made of the fixed prefix and the store's
    error text, and after a failed preparation nothing is bound or
    stepped. *)
Theorem insert_outcome {store T : Type} (B : backend store) (tableName : string)
  (data : T) (fm : field_mapping T) (w : world store) :
  exists sql r,
    insert_sql tableName fm = Some sql
    /\ insert B tableName data fm w = Some r
    /\ let prepared := be_prepare B (db w) sql in
       let stepped :=
         be_step B (snd prepared)
           {| stmt_sql := sql;
              stmt_params := bound_params SQLITE_TRANSIENT data fm 1 |} in
       fst r = Z.eqb (fst prepared) SQLITE_OK && Z.eqb (fst stepped) SQLITE_DONE
       /\ cerr (snd r)
          = (cerr w ++
             if negb (Z.eqb (fst prepared) SQLITE_OK) then
               [("Error preparing insert statement: "
                   ++ be_errmsg B (snd prepared))%string]
             else if negb (Z.eqb (fst stepped) SQLITE_DONE) then
               [("Error executing INSERT statement: "
                   ++ be_errmsg B (snd stepped))%string]
             else [])%list
       /\ calls (snd r)
          = (calls w ++ Call_prepare_v2 sql
               :: (if Z.eqb (fst prepared) SQLITE_OK
                   then bind_calls SQLITE_TRANSIENT data fm 1
                          ++ [Call_step; Call_finalize]
                   else []))%list.
Proof.
  unfold insert.
  destruct (insert_sql tableName fm) as [sql|] eqn:E;
    [|exfalso; exact (StatementFacts.insert_sql_defined tableName fm E)].
  exists sql. eexists. split; [reflexivity|]. split; [reflexivity|]. cbv zeta.
  destruct (Z.eqb (fst (be_prepare B (db w) sql)) SQLITE_OK) eqn:Hp.
  - rewrite (RunFacts.insert_with_prepared B sql data fm w Hp). cbv zeta.
    destruct (Z.eqb (fst (be_step B _ _)) SQLITE_DONE); cbn [fst snd cerr calls negb andb];
      rewrite ?app_nil_r; repeat split.
  - rewrite (RunFacts.insert_with_prepare_failed B sql data fm w Hp).
    cbn [fst snd cerr calls negb andb]. repeat split.
Qed.

(** X2.  [update] returns true exactly when the store prepares the text
    and the step completes, whatever the number of rows changed; the
    change count decides only whether the warning is written. *)
Theorem update_outcome {store T : Type} (B : backend store) (tableName : string)
  (id : Z) (data : T) (fm : field_mapping T) (w : world store) :
  exists sql r,
    update_sql tableName fm = Some sql
    /\ update B tableName id data fm w = Some r
    /\ let prepared := be_prepare B (db w) sql in
       let stepped :=
         be_step B (snd prepared)
           {| stmt_sql := sql;
              stmt_params :=
                (bound_params SQLITE_STATIC data fm 1
                   ++ [((1 + Z.of_nat (List.length fm))%Z, SqlInteger id)])%list |} in
       fst r = Z.eqb (fst prepared) SQLITE_OK && Z.eqb (fst stepped) SQLITE_DONE
       /\ cerr (snd r)
          = (cerr w ++
             if negb (Z.eqb (fst prepared) SQLITE_OK) then
               [("Error preparing UPDATE statement: "
                   ++ be_errmsg B (snd prepared))%string]
             else if negb (Z.eqb (fst stepped) SQLITE_DONE) then
               [("Error executing update statement: "
                   ++ be_errmsg B (snd stepped))%string]
             else if Z.eqb (be_changes B (snd stepped)) 0 then
               ["No rows were updated. Check if the ID exists."]
             else [])%list.
Proof.
  unfold update.
  destruct (update_sql tableName fm) as [sql|] eqn:E;
    [|exfalso; exact (StatementFacts.update_sql_defined tableName fm E)].
  exists sql. eexists. split; [reflexivity|]. split; [reflexivity|]. cbv zeta.
  destruct (Z.eqb (fst (be_prepare B (db w) sql)) SQLITE_OK) eqn:Hp.
  - rewrite (RunFacts.update_with_prepared B sql id data fm w Hp). cbv zeta.
    destruct (Z.eqb (fst (be_step B _ _)) SQLITE_DONE); cbn [fst snd cerr negb andb];
      split; reflexivity.
  - rewrite (RunFacts.update_with_prepare_failed B sql id data fm w Hp).
    cbn [fst snd cerr negb andb]. split; reflexivity.
Qed.

(* ===================================================================== *)
(** * More of the class *)

(** ** Texts over plain names *)

Module NameFacts.
Import Names.

Lemma all_chars_append (p : ascii -> bool) (a b : string) :
  all_chars p (a ++ b) = all_chars p a && all_chars p b.
Proof.
  induction a as [|c a IH]; cbn [append all_chars]; [reflexivity|].
  now rewrite IH, andb_assoc.
Qed.

Lemma all_chars_concat (p : ascii -> bool) (sep : string) (l : list string) :
  all_chars p sep = true -> Forall (fun k => all_chars p k = true) l ->
  all_chars p (String.concat sep l) = true.
Proof.
  intros Hsep. induction l as [|a l IH]; intros Hall; [reflexivity|].
  inversion Hall as [|? ? Ha Hl]; subst.
  destruct l as [|b l]; [exact Ha|].
  change (all_chars p (a ++ sep ++ String.concat sep (b :: l)) = true).
  now rewrite !all_chars_append, Ha, Hsep, IH.
Qed.

Lemma all_chars_impl (p q : ascii -> bool) (s : string) :
  (forall c, p c = true -> q c = true) -> all_chars p s = true ->
  all_chars q s = true.
Proof.
  intros Hpq. induction s as [|c s IH]; cbn [all_chars]; [reflexivity|].
  intros H. apply andb_true_iff in H. destruct H as [Hc Hs].
  now rewrite (Hpq c Hc), IH.
Qed.

Lemma word_simple (s : string) : word s = true -> simple s = true.
Proof.
  apply all_chars_impl. intros c H. unfold simple_char. now rewrite H.
Qed.

(** A character [p] excludes does not occur. *)
Lemma all_chars_count (p : ascii -> bool) (c : ascii) (s : string) :
  p c = false -> all_chars p s = true -> count c s = 0.
Proof.
  intros Hc. induction s as [|d s IH]; cbn [all_chars count]; [reflexivity|].
  intros H. apply andb_true_iff in H. destruct H as [Hd Hs].
  destruct (Ascii.eqb c d) eqn:E; [|now rewrite IH].
  apply Ascii.eqb_eq in E. subst d. congruence.
Qed.

Lemma count_concat_none (c : ascii) (sep : string) (l : list string) :
  count c sep = 0 -> Forall (fun k => count c k = 0) l ->
  count c (String.concat sep l) = 0.
Proof.
  intros Hsep. induction l as [|a l IH]; intros Hall; [reflexivity|].
  inversion Hall as [|? ? Ha Hl]; subst.
  destruct l as [|b l]; [exact Ha|].
  change (count c (a ++ sep ++ String.concat sep (b :: l)) = 0).
  now rewrite !StdStringFacts.count_append, Ha, Hsep, IH.
Qed.

Lemma placeholders_simple {E : Type} (l : list E) :
  simple (String.concat " " (map (fun _ => "?,") l)) = true.
Proof.
  apply all_chars_concat; [reflexivity|].
  apply Forall_forall. intros k Hk. apply in_map_iff in Hk.
  now destruct Hk as [e [<- _]].
Qed.

Lemma counting_rejects : rejects_open_parentheses counting.
Proof.
  intros st sql _ H. cbn [counting be_prepare fst].
  destruct (Nat.eqb (count "(" sql) (count ")" sql)) eqn:E; [|reflexivity].
  apply Nat.eqb_eq in E. contradiction.
Qed.

End NameFacts.

(** ** The text of insert over plain names *)

Module InsertTextFacts.
Import Names.

Lemma words_simple (l : list string) :
  Forall (fun k => word k = true) l -> Forall (fun k => simple k = true) l.
Proof. apply Forall_impl. exact NameFacts.word_simple. Qed.

Lemma words_without (c : ascii) (l : list string) :
  SqlText.is_word_char c = false ->
  Forall (fun k => word k = true) l -> Forall (fun k => count c k = 0) l.
Proof.
  intros Hc. apply Forall_impl. intros k. now apply NameFacts.all_chars_count.
Qed.

(** Over plain names the text of [insert] is simple, holds no closing
    parenthesis and at least one opening one. *)
Lemma insert_text_open {T : Type} (tableName : string) (fm : field_mapping T) :
  word tableName = true ->
  Forall (fun k => word k = true) (keys fm) ->
  exists sql,
    insert_sql tableName fm = Some sql
    /\ simple sql = true /\ count ")" sql = 0 /\ 0 < count "(" sql.
Proof.
  intros Htable Hkeys.
  assert (Hts := NameFacts.word_simple _ Htable).
  assert (Htc : count ")" tableName = 0)
    by (now apply (NameFacts.all_chars_count SqlText.is_word_char)).
  destruct fm as [|e fm'] eqn:Efm.
  - eexists. split; [apply StatementFacts.insert_sql_empty|].
    unfold simple. rewrite !NameFacts.all_chars_append.
    rewrite !StdStringFacts.count_append, Htc.
    fold (simple tableName). rewrite Hts. cbn. repeat split; lia.
  - rewrite <- Efm in *.
    assert (Hfm : fm <> []) by (rewrite Efm; discriminate).
    eexists. split; [apply StatementFacts.insert_sql_nonempty, Hfm|].
    assert (Hcs : simple (String.concat "," (keys fm)) = true)
      by (apply NameFacts.all_chars_concat; [reflexivity | now apply words_simple]).
    assert (Hcc : count ")" (String.concat "," (keys fm)) = 0)
      by (apply NameFacts.count_concat_none;
          [reflexivity | now apply words_without]).
    assert (Hqs := NameFacts.placeholders_simple fm).
    assert (Hqc : count ")" (String.concat " " (map (fun _ => "?,") fm)) = 0)
      by (now apply ShapeFacts.placeholders_count).
    unfold simple in *. rewrite !NameFacts.all_chars_append.
    rewrite !StdStringFacts.count_append, Htc, Hcc, Hqc, Hts, Hcs, Hqs.
    cbn. repeat split; lia.
Qed.

End InsertTextFacts.

(** X3.  With a table name and column names made of letters, digits and
    underscores, the text [insert] builds opens a parenthesis and closes
    none, for every field mapping, the empty one included.  A store that
    prepares no such text makes [insert] return false whatever the record
    is: the text is prepared and refused, one line goes to [std::cerr],
    and nothing is bound, stepped or finalized. *)
Theorem insert_text_never_closes {store T : Type} (B : backend store)
  (tableName : string) (data : T) (fm : field_mapping T) (w : world store) :
  Names.word tableName = true ->
  Forall (fun k => Names.word k = true) (keys fm) ->
  Names.rejects_open_parentheses B ->
  exists sql w',
    insert_sql tableName fm = Some sql
    /\ Names.simple sql = true
    /\ count ")" sql = 0
    /\ 0 < count "(" sql
    /\ insert B tableName data fm w = Some (false, w')
    /\ calls w' = (calls w ++ [Call_prepare_v2 sql])%list
    /\ cerr w' = (cerr w ++ [("Error preparing insert statement: "
                               ++ be_errmsg B (db w'))%string])%list
    /\ db w' = snd (be_prepare B (db w) sql).
Proof.
  intros Htable Hkeys Hstore.
  destruct (InsertTextFacts.insert_text_open tableName fm Htable Hkeys)
    as (sql & Hsql & Hsimple & Hclose & Hopen).
  exists sql. eexists. split; [exact Hsql|].
  split; [exact Hsimple|]. split; [exact Hclose|]. split; [exact Hopen|].
  unfold insert. rewrite Hsql.
  rewrite (RunFacts.insert_with_prepare_failed B sql data fm w)
    by (apply Hstore; [exact Hsimple | lia]).
  repeat split.
Qed.

Lemma insert_text_never_closes_witness :
  Names.word "item" = true
  /\ Forall (fun k => Names.word k = true) (keys Examples.stock_fields)
  /\ Names.rejects_open_parentheses Names.counting
  /\ exists sql w',
      insert_sql "item" Examples.stock_fields = Some sql
      /\ Names.simple sql = true
      /\ count ")" sql = 0
      /\ 0 < count "(" sql
      /\ insert Names.counting "item" Examples.hammers Examples.stock_fields
           Examples.nowhere = Some (false, w')
      /\ calls w' = (calls Examples.nowhere ++ [Call_prepare_v2 sql])%list
      /\ cerr w' = (cerr Examples.nowhere
                      ++ [("Error preparing insert statement: "
                             ++ be_errmsg Names.counting (db w'))%string])%list
      /\ db w' = snd (be_prepare Names.counting (db Examples.nowhere) sql).
Proof.
  split; [vm_compute; reflexivity|].
  split; [vm_compute; repeat constructor|].
  split; [exact NameFacts.counting_rejects|].
  apply (insert_text_never_closes Names.counting "item" Examples.hammers
           Examples.stock_fields Examples.nowhere).
  - vm_compute. reflexivity.
  - vm_compute. repeat constructor.
  - exact NameFacts.counting_rejects.
Defined.

(** ** The text of update over identifiers *)

Module UpdateTextFacts.
Import Names.

(** A character that belongs to no word ends the word being read. *)
Lemma lex_from_break (s rest word : string) (c : ascii) :
  SqlText.is_word_char c = false ->
  lex_from (s ++ String c rest) word
  = (lex_from s word ++ punct c ++ lex_from rest "")%list.
Proof.
  intros Hc. revert word. induction s as [|d s IH]; intros word.
  - cbn [append lex_from]. now rewrite Hc.
  - cbn [append lex_from]. destruct (SqlText.is_word_char d); [apply IH|].
    rewrite IH, <- !app_assoc. reflexivity.
Qed.

Lemma lex_from_word (s word : string) :
  Names.word s = true -> lex_from s word = flush (word ++ s).
Proof.
  revert word. induction s as [|c s IH]; intros word; cbn [Names.word all_chars lex_from].
  - intros _. now rewrite StdStringFacts.append_empty_r.
  - intros H. apply andb_true_iff in H. destruct H as [Hc Hs]. rewrite Hc.
    rewrite (IH _ Hs), StdStringFacts.append_assoc. reflexivity.
Qed.

(** An identifier is read as one word. *)
Lemma lex_identifier (s : string) :
  identifier s = true -> lex_from s "" = [TWord s].
Proof.
  unfold identifier. intros H. apply andb_true_iff in H. destruct H as [Hne Hw].
  rewrite (lex_from_word s "" Hw). cbn [append].
  destruct s; [discriminate | reflexivity].
Qed.

(** The assignments [update] writes begin with the first column name and
    a placeholder. *)
Lemma assignments_begin (k : string) (ks : list string) (after : string) :
  exists tail,
    String.concat ", " (map (fun c => c ++ "?") (k :: ks)) ++ after
    = k ++ String "?" tail.
Proof.
  destruct ks as [|k' ks].
  - exists after. cbn [map String.concat]. now rewrite StdStringFacts.append_assoc.
  - eexists.
    change (String.concat ", " (map (fun c => c ++ "?") (k :: k' :: ks)))
      with ((k ++ "?") ++ ", "
              ++ String.concat ", " (map (fun c => c ++ "?") (k' :: ks))).
    rewrite !StdStringFacts.append_assoc. reflexivity.
Qed.

(** The tokens of [update]'s text over identifiers: the first column
    name is followed by the placeholder, not by an equals sign. *)
Lemma update_tokens {T : Type} (tableName : string) (fm : field_mapping T)
  (k : string) (ks : list string) :
  keys fm = k :: ks ->
  identifier tableName = true -> identifier k = true ->
  exists sql rest,
    update_sql tableName fm = Some sql
    /\ lex sql
       = TWord "UPDATE" :: TWord tableName :: TWord "SET" :: TWord k :: TParam :: rest.
Proof.
  intros Hkeys Htable Hk.
  assert (Hfm : fm <> []) by (destruct fm; [discriminate | discriminate]).
  destruct (assignments_begin k ks " WHERE id = ?;") as [tail Htail].
  eexists. exists (lex_from tail "").
  split; [apply StatementFacts.update_sql_nonempty, Hfm|].
  rewrite Hkeys, Htail. unfold lex.
  change ("UPDATE " ++ tableName ++ " SET " ++ k ++ String "?" tail)
    with ("UPDATE" ++ String " " (tableName ++ String " "
            ("SET" ++ String " " (k ++ String "?" tail)))).
  rewrite !lex_from_break by reflexivity.
  rewrite (lex_identifier _ Htable), (lex_identifier _ Hk).
  reflexivity.
Qed.

Lemma mini_prepares_statements_only : prepares_statements_only MiniSqlite.mini.
Proof.
  intros st sql H. cbn [MiniSqlite.mini be_prepare]. unfold MiniSqlite.prepare.
  unfold well_formed in H. destruct (parse sql); [discriminate | reflexivity].
Qed.

End UpdateTextFacts.

(** X4.  With identifiers for the table and the first column, the text
    [update] builds reads [UPDATE table SET column ?...]: the column name
    is followed by the placeholder, so the text is none of the statements
    the recogniser knows, under any spacing.  A store that prepares
    nothing else makes [update] return false: one line on [std::cerr],
    nothing bound or stepped, the id never used. *)
Theorem update_text_is_no_statement {store T : Type} (B : backend store)
  (tableName : string) (id : Z) (data : T) (fm : field_mapping T)
  (w : world store) (k : string) (ks : list string) :
  keys fm = k :: ks ->
  Names.identifier tableName = true ->
  Names.identifier k = true ->
  Names.prepares_statements_only B ->
  exists sql rest w',
    update_sql tableName fm = Some sql
    /\ lex sql
       = TWord "UPDATE" :: TWord tableName :: TWord "SET" :: TWord k :: TParam :: rest
    /\ parse sql = None
    /\ update B tableName id data fm w = Some (false, w')
    /\ calls w' = (calls w ++ [Call_prepare_v2 sql])%list
    /\ cerr w' = (cerr w ++ [("Error preparing UPDATE statement: "
                               ++ be_errmsg B (db w'))%string])%list.
Proof.
  intros Hkeys Htable Hk Hstore.
  destruct (UpdateTextFacts.update_tokens tableName fm k ks Hkeys Htable Hk)
    as (sql & rest & Hsql & Hlex).
  assert (Hparse : parse sql = None).
  { unfold parse. rewrite Hlex. reflexivity. }
  exists sql, rest. eexists. split; [exact Hsql|]. split; [exact Hlex|].
  split; [exact Hparse|].
  unfold update. rewrite Hsql.
  rewrite (RunFacts.update_with_prepare_failed B sql id data fm w)
    by (apply Hstore; unfold well_formed; now rewrite Hparse).
  repeat split.
Qed.

Lemma update_text_is_no_statement_witness :
  keys Examples.category_fields = "description" :: ["name"]
  /\ Names.identifier "category" = true
  /\ Names.identifier "description" = true
  /\ Names.prepares_statements_only MiniSqlite.mini
  /\ exists sql rest w',
      update_sql "category" Examples.category_fields = Some sql
      /\ lex sql
         = TWord "UPDATE" :: TWord "category" :: TWord "SET" :: TWord "description"
             :: TParam :: rest
      /\ parse sql = None
      /\ update MiniSqlite.mini "category" 1 Examples.power_tools
           Examples.category_fields Examples.stocked = Some (false, w')
      /\ calls w' = (calls Examples.stocked ++ [Call_prepare_v2 sql])%list
      /\ cerr w' = (cerr Examples.stocked
                      ++ [("Error preparing UPDATE statement: "
                             ++ be_errmsg MiniSqlite.mini (db w'))%string])%list.
Proof.
  split; [vm_compute; reflexivity|].
  split; [vm_compute; reflexivity|].
  split; [vm_compute; reflexivity|].
  split; [exact UpdateTextFacts.mini_prepares_statements_only|].
  apply (update_text_is_no_statement MiniSqlite.mini "category" 1
           Examples.power_tools Examples.category_fields Examples.stocked
           "description" ["name"]).
  - vm_compute. reflexivity.
  - vm_compute. reflexivity.
  - vm_compute. reflexivity.
  - exact UpdateTextFacts.mini_prepares_statements_only.
Defined.

(** ** Statements from preparation to finalization *)

Module LifetimeFacts.
Import Names.

Lemma bind_calls_plain {T : Type} (d : destructor) (data : T)
  (fm : field_mapping T) (first : Z) :
  filter is_finalize (bind_calls d data fm first) = []
  /\ filter is_step (bind_calls d data fm first) = [].
Proof.
  revert first. induction fm as [|[c g] fm IH]; intros first;
    cbn [bind_calls]; [now split|].
  destruct (IH (first + 1)%Z) as [H1 H2].
  destruct (g data); cbn [bind_call filter is_finalize is_step]; now split.
Qed.

Lemma added_after {store : Type} (w w' : world store) (more : list api_call) :
  calls w' = (calls w ++ more)%list -> added w w' = more.
Proof. unfold added. intros ->. apply TextFacts.skipn_past. Qed.

End LifetimeFacts.

(** X5.  Whatever the store answers, [insert] and [update] each prepare
    one statement and, when it was prepared, finalize it exactly once, as
    their last call, after stepping it exactly once -- on the path where
    the step fails as on the path where it completes.  When it was not
    prepared they call nothing further: no bind, no step, no finalize. *)
Theorem prepared_statements_are_finalized {store T : Type} (B : backend store)
  (tableName : string) (id : Z) (data : T) (fm : field_mapping T)
  (w : world store) :
  exists isql usql ri ru,
    insert_sql tableName fm = Some isql
    /\ update_sql tableName fm = Some usql
    /\ insert B tableName data fm w = Some ri
    /\ update B tableName id data fm w = Some ru
    /\ Names.statement_lifetime
         (Z.eqb (fst (be_prepare B (db w) isql)) SQLITE_OK) isql
         (Names.added w (snd ri))
    /\ Names.statement_lifetime
         (Z.eqb (fst (be_prepare B (db w) usql)) SQLITE_OK) usql
         (Names.added w (snd ru)).
Proof.
  destruct (insert_sql tableName fm) as [isql|] eqn:Ei;
    [|exfalso; exact (StatementFacts.insert_sql_defined tableName fm Ei)].
  destruct (update_sql tableName fm) as [usql|] eqn:Eu;
    [|exfalso; exact (StatementFacts.update_sql_defined tableName fm Eu)].
  exists isql, usql. unfold insert, update. rewrite Ei, Eu.
  eexists. eexists. do 4 (split; [reflexivity|]).
  destruct (LifetimeFacts.bind_calls_plain SQLITE_TRANSIENT data fm 1) as [Hf Hs].
  destruct (LifetimeFacts.bind_calls_plain SQLITE_STATIC data fm 1) as [Hf' Hs'].
  unfold Names.statement_lifetime. split.
  - destruct (Z.eqb (fst (be_prepare B (db w) isql)) SQLITE_OK) eqn:Hp.
    + exists (bind_calls SQLITE_TRANSIENT data fm 1 ++ [Call_step])%list.
      rewrite !filter_app, Hf, Hs, TextFacts.prepared_app,
        BindingFacts.bind_calls_prepare_nothing.
      split; [|repeat split]. apply LifetimeFacts.added_after.
      rewrite (RunFacts.insert_with_prepared B isql data fm w Hp). cbv zeta.
      destruct (Z.eqb (fst (be_step B _ _)) SQLITE_DONE); cbn [snd calls];
        rewrite <- !app_assoc; reflexivity.
    + apply LifetimeFacts.added_after.
      now rewrite (RunFacts.insert_with_prepare_failed B isql data fm w Hp).
  - destruct (Z.eqb (fst (be_prepare B (db w) usql)) SQLITE_OK) eqn:Hp.
    + rewrite (RunFacts.update_with_prepared B usql id data fm w Hp). cbv zeta.
      destruct (Z.eqb (fst (be_step B _ _)) SQLITE_DONE); cbn [snd].
      * exists (bind_calls SQLITE_STATIC data fm 1
                  ++ [Call_bind_int (1 + Z.of_nat (List.length fm)) id; Call_step;
                      Call_changes])%list.
        rewrite !filter_app, Hf', Hs', TextFacts.prepared_app,
          BindingFacts.bind_calls_prepare_nothing.
        split; [|repeat split]. apply LifetimeFacts.added_after. cbn [calls].
        rewrite <- !app_assoc. cbn [app]. rewrite <- !app_assoc. reflexivity.
      * exists (bind_calls SQLITE_STATIC data fm 1
                  ++ [Call_bind_int (1 + Z.of_nat (List.length fm)) id; Call_step])%list.
        rewrite !filter_app, Hf', Hs', TextFacts.prepared_app,
          BindingFacts.bind_calls_prepare_nothing.
        split; [|repeat split]. apply LifetimeFacts.added_after. cbn [calls].
        rewrite <- !app_assoc. cbn [app]. rewrite <- !app_assoc. reflexivity.
    + apply LifetimeFacts.added_after.
      now rewrite (RunFacts.update_with_prepare_failed B usql id data fm w Hp).
Qed.

(** ** Placeholders and parameters *)

Module ParameterFacts.
Import Names.

Lemma bind_indices_app (a b : list api_call) :
  bind_indices (a ++ b) = (bind_indices a ++ bind_indices b)%list.
Proof. unfold bind_indices. apply flat_map_app. Qed.

Lemma bind_calls_indices {T : Type} (d : destructor) (data : T)
  (fm : field_mapping T) (first : Z) :
  bind_indices (bind_calls d data fm first) = indices first (List.length fm).
Proof.
  revert first. induction fm as [|[c g] fm IH]; intros first;
    cbn [bind_calls List.length indices]; [reflexivity|].
  unfold bind_indices in *. cbn [flat_map]. rewrite IH.
  destruct (g data); reflexivity.
Qed.

Lemma indices_snoc (first : Z) (n : nat) :
  indices first (S n) = (indices first n ++ [(first + Z.of_nat n)%Z])%list.
Proof.
  revert first. induction n as [|n IH]; intros first.
  - cbn. now rewrite Z.add_0_r.
  - change (indices first (S (S n))) with (first :: indices (first + 1) (S n)).
    rewrite IH. cbn [indices app]. do 3 f_equal. lia.
Qed.



(** Each assignment [update] writes holds one placeholder. *)
Lemma assignments_params (columns : list string) :
  Forall (fun k => count "?" k = 0) columns ->
  count "?" (String.concat ", " (map (fun c => c ++ "?") columns))
  = List.length columns.
Proof.
  induction columns as [|a l IH]; intros Hall; [reflexivity|].
  inversion Hall as [|? ? Ha Hl]; subst.
  destruct l as [|b l].
  - cbn [map String.concat List.length]. rewrite StdStringFacts.count_append, Ha.
    reflexivity.
  - change (count "?" ((a ++ "?") ++ ", "
                       ++ String.concat ", " (map (fun c => c ++ "?") (b :: l)))
            = S (List.length (b :: l))).
    rewrite !StdStringFacts.count_append, Ha, (IH Hl). reflexivity.
Qed.

(** Over names without a question mark, the placeholders of the two
    texts: one per entry, and one more for the id in [update]. *)
Lemma text_placeholders {T : Type} (tableName : string) (fm : field_mapping T) :
  count "?" tableName = 0 ->
  Forall (fun k => count "?" k = 0) (keys fm) ->
  exists isql usql,
    insert_sql tableName fm = Some isql
    /\ update_sql tableName fm = Some usql
    /\ count "?" isql = List.length fm
    /\ count "?" usql = S (List.length fm).
Proof.
  intros Htable Hkeys.
  assert (Hlen : List.length (keys fm) = List.length fm)
    by (unfold keys; apply length_map).
  destruct fm as [|e fm'] eqn:Efm.
  - eexists. eexists.
    split; [apply StatementFacts.insert_sql_empty|].
    split; [apply StatementFacts.update_sql_empty|].
    rewrite !StdStringFacts.count_append, Htable. split; reflexivity.
  - rewrite <- Efm in *.
    assert (Hfm : fm <> []) by (rewrite Efm; discriminate).
    eexists. eexists.
    split; [apply StatementFacts.insert_sql_nonempty, Hfm|].
    split; [apply StatementFacts.update_sql_nonempty, Hfm|].
    rewrite !StdStringFacts.count_append, Htable.
    rewrite (NameFacts.count_concat_none "?" "," (keys fm)) by (reflexivity || exact Hkeys).
    rewrite ShapeFacts.placeholders_params, (assignments_params _ Hkeys), Hlen.
    cbn. split; lia.
Qed.

End ParameterFacts.

(** X6.  With a table name and column names that hold no question mark,
    the bind calls of [insert] and [update] address exactly the
    placeholders of the text they prepared, each once and in order:
    [insert]'s text has one placeholder per entry and its bind calls
    address 1..n; [update]'s text has one more and its bind calls address
    1..n + 1.  When the text is not prepared no parameter is bound. *)
Theorem bindings_address_the_placeholders {store T : Type} (B : backend store)
  (tableName : string) (id : Z) (data : T) (fm : field_mapping T)
  (w : world store) :
  count "?" tableName = 0 ->
  Forall (fun k => count "?" k = 0) (keys fm) ->
  exists isql usql ri ru,
    insert_sql tableName fm = Some isql
    /\ update_sql tableName fm = Some usql
    /\ insert B tableName data fm w = Some ri
    /\ update B tableName id data fm w = Some ru
    /\ count "?" isql = List.length fm
    /\ count "?" usql = S (List.length fm)
    /\ Names.bind_indices (Names.added w (snd ri))
       = (if Z.eqb (fst (be_prepare B (db w) isql)) SQLITE_OK
          then indices 1 (count "?" isql) else [])
    /\ Names.bind_indices (Names.added w (snd ru))
       = (if Z.eqb (fst (be_prepare B (db w) usql)) SQLITE_OK
          then indices 1 (count "?" usql) else []).
Proof.
  intros Htable Hkeys.
  destruct (ParameterFacts.text_placeholders tableName fm Htable Hkeys)
    as (isql & usql & Ei & Eu & Hi & Hu).
  exists isql, usql. unfold insert, update. rewrite Ei, Eu.
  eexists. eexists. do 4 (split; [reflexivity|]).
  split; [exact Hi|]. split; [exact Hu|]. rewrite Hi, Hu. split.
  - destruct (Z.eqb (fst (be_prepare B (db w) isql)) SQLITE_OK) eqn:Hp.
    + rewrite (LifetimeFacts.added_after w _
                 (Call_prepare_v2 isql :: bind_calls SQLITE_TRANSIENT data fm 1
                    ++ [Call_step; Call_finalize])).
      * change (Call_prepare_v2 isql :: ?l) with ([Call_prepare_v2 isql] ++ l)%list.
        rewrite !ParameterFacts.bind_indices_app,
          ParameterFacts.bind_calls_indices.
        cbn. now rewrite app_nil_r.
      * rewrite (RunFacts.insert_with_prepared B isql data fm w Hp). cbv zeta.
        destruct (Z.eqb (fst (be_step B _ _)) SQLITE_DONE); reflexivity.
    + rewrite (LifetimeFacts.added_after w _ [Call_prepare_v2 isql]);
        [reflexivity|].
      now rewrite (RunFacts.insert_with_prepare_failed B isql data fm w Hp).
  - destruct (Z.eqb (fst (be_prepare B (db w) usql)) SQLITE_OK) eqn:Hp.
    + rewrite ParameterFacts.indices_snoc.
      rewrite (RunFacts.update_with_prepared B usql id data fm w Hp). cbv zeta.
      destruct (Z.eqb (fst (be_step B _ _)) SQLITE_DONE); cbn [snd];
        (erewrite LifetimeFacts.added_after;
         [|cbn [calls]; rewrite <- !app_assoc; reflexivity]);
        change (Call_prepare_v2 usql :: ?l) with ([Call_prepare_v2 usql] ++ l)%list;
        rewrite !ParameterFacts.bind_indices_app,
          ParameterFacts.bind_calls_indices; cbn; now rewrite app_nil_r.
    + rewrite (LifetimeFacts.added_after w _ [Call_prepare_v2 usql]);
        [reflexivity|].
      now rewrite (RunFacts.update_with_prepare_failed B usql id data fm w Hp).
Qed.

Lemma bindings_address_the_placeholders_witness :
  count "?" "category" = 0
  /\ Forall (fun k => count "?" k = 0) (keys Examples.category_assignments)
  /\ exists isql usql ri ru,
      insert_sql "category" Examples.category_assignments = Some isql
      /\ update_sql "category" Examples.category_assignments = Some usql
      /\ insert MiniSqlite.mini "category" Examples.tools
           Examples.category_assignments Examples.stocked = Some ri
      /\ update MiniSqlite.mini "category" 1 Examples.tools
           Examples.category_assignments Examples.stocked = Some ru
      /\ count "?" isql = List.length Examples.category_assignments
      /\ count "?" usql = S (List.length Examples.category_assignments)
      /\ Names.bind_indices (Names.added Examples.stocked (snd ri))
         = (if Z.eqb (fst (be_prepare MiniSqlite.mini (db Examples.stocked) isql))
                 SQLITE_OK
            then indices 1 (count "?" isql) else [])
      /\ Names.bind_indices (Names.added Examples.stocked (snd ru))
         = (if Z.eqb (fst (be_prepare MiniSqlite.mini (db Examples.stocked) usql))
                 SQLITE_OK
            then indices 1 (count "?" usql) else []).
Proof.
  split; [vm_compute; reflexivity|].
  split; [vm_compute; repeat constructor|].
  apply (bindings_address_the_placeholders MiniSqlite.mini "category" 1
           Examples.tools Examples.category_assignments Examples.stocked).
  - vm_compute. reflexivity.
  - vm_compute. repeat constructor.
Defined.


(** ** init and the tables of a store *)

Module SchemaFacts.

Section Contract.
Context {store : Type} (B : backend store) (tables_of : store -> list string).
Hypothesis contract : schema_contract B tables_of.

(** Creations keep the tables there are, whether they succeed or not. *)
Lemma creations_keep_tables (statements : list (string * string)) (st : store) :
  Forall (fun s => exists name, creates (fst s) name) statements ->
  forall t, In t (tables_of st) -> In t (tables_of (exec_all B st statements)).
Proof.
  revert st. induction statements as [|[sql what] rest IH]; intros st Hall t Ht;
    [exact Ht|].
  inversion Hall as [|? ? [name Hname] Hrest]; subst. cbn [fst] in Hname.
  cbn [exec_all]. apply (IH _ Hrest).
  exact (create_keeps B tables_of contract st sql name t Hname Ht).
Qed.

End Contract.

End SchemaFacts.

(** X8.  Each of the five creation texts of [init] is one
    [CREATE TABLE IF NOT EXISTS] statement and nothing more, and the
    sixth text is the foreign-key pragma: on a store that keeps SQLite's
    contract for these six texts, [init] removes no table, whichever of
    its statements fail -- every table the store had before is there
    after. *)
Theorem init_drops_no_table {store : Type} (B : backend store)
  (tables_of : store -> list string) (w : world store) (t : string) :
  schema_contract B tables_of ->
  In t (tables_of (db w)) ->
  In t (tables_of (db (snd (init B w))))
  /\ parse foreignKeySupport = Some StPragmaForeignKeys
  /\ map creates_if_absent (map fst creation_statements)
     = [ Some "category"; Some "suppliers"; Some "item"; Some "user";
         Some "transaction_records" ].
Proof.
  intros contract Ht. split; [|split; vm_compute; reflexivity].
  rewrite (InitFacts.init_run B w). cbn [snd db].
  unfold init_statements. cbn [exec_all].
  apply (SchemaFacts.creations_keep_tables B tables_of contract);
    [exact IdempotenceFacts.creations_named|].
  destruct (pragma_succeeds B tables_of contract (db w)) as [_ Hsame].
  now rewrite Hsame.
Qed.

Lemma init_drops_no_table_witness :
  schema_contract MiniSqlite.mini MiniSqlite.table_names
  /\ In "item" (MiniSqlite.table_names (db Examples.stocked))
  /\ In "item"
       (MiniSqlite.table_names (db (snd (init MiniSqlite.mini Examples.stocked))))
  /\ parse foreignKeySupport = Some StPragmaForeignKeys
  /\ map creates_if_absent (map fst creation_statements)
     = [ Some "category"; Some "suppliers"; Some "item"; Some "user";
         Some "transaction_records" ].
Proof.
  split; [exact MiniFacts.mini_schema_contract|].
  split; [vm_compute; tauto|].
  apply (init_drops_no_table MiniSqlite.mini MiniSqlite.table_names
           Examples.stocked "item").
  - exact MiniFacts.mini_schema_contract.
  - vm_compute. tauto.
Defined.

(** X9.  The foreign keys of the tables [init] creates refer to category,
    suppliers, item and user, each created by an earlier statement of
    [init] than the table that refers to it; on a store that keeps
    SQLite's contract for the six texts of [init], after an [init] that
    reported nothing every table a foreign key refers to exists. *)
Theorem init_resolves_its_references {store : Type} (B : backend store)
  (tables_of : store -> list string) (w : world store) :
  schema_contract B tables_of ->
  cerr (snd (init B w)) = cerr w ->
  Names.references_resolved [] (map fst creation_statements) = true
  /\ Names.referenced_tables (map fst creation_statements)
     = ["category"; "suppliers"; "item"; "user"]
  /\ map creates_if_absent (map fst creation_statements)
     = [ Some "category"; Some "suppliers"; Some "item"; Some "user";
         Some "transaction_records" ]
  /\ Forall (fun parent => In parent (tables_of (db (snd (init B w)))))
       (Names.referenced_tables (map fst creation_statements)).
Proof.
  intros contract Hquiet.
  split; [vm_compute; reflexivity|].
  assert (Hrefs : Names.referenced_tables (map fst creation_statements)
                  = ["category"; "suppliers"; "item"; "user"])
    by (vm_compute; reflexivity).
  split; [exact Hrefs|]. split; [vm_compute; reflexivity|]. rewrite Hrefs.
  rewrite (InitFacts.init_run B w) in *. cbn [snd cerr db] in *.
  assert (Hnone : failures B (db w) init_statements = []).
  { apply (app_inv_head (cerr w)). now rewrite app_nil_r. }
  unfold init_statements in *. cbn [failures exec_all] in *.
  apply app_eq_nil in Hnone. destruct Hnone as [_ Hcreated].
  destruct (IdempotenceFacts.creations_leave_tables B tables_of contract
              creation_statements _ IdempotenceFacts.creations_named Hcreated)
    as [_ Hnamed].
  repeat constructor.
  - apply (Hnamed (categoryTableQuery, "Error Creating Category Table: "));
      [cbn; tauto | split; [cbn; tauto | vm_compute; reflexivity]].
  - apply (Hnamed (supplierTableQuery, "Error Creating Supplier Table: "));
      [cbn; tauto | split; [cbn; tauto | vm_compute; reflexivity]].
  - apply (Hnamed (itemTableQuery, "Error Creating Items Table: "));
      [cbn; tauto | split; [cbn; tauto | vm_compute; reflexivity]].
  - apply (Hnamed (userTableQuery, "Error Creating User Table: "));
      [cbn; tauto | split; [cbn; tauto | vm_compute; reflexivity]].
Qed.

Lemma init_resolves_its_references_witness :
  schema_contract MiniSqlite.mini MiniSqlite.table_names
  /\ cerr (snd (init MiniSqlite.mini MiniSqlite.fresh)) = cerr MiniSqlite.fresh
  /\ Names.references_resolved [] (map fst creation_statements) = true
  /\ Names.referenced_tables (map fst creation_statements)
     = ["category"; "suppliers"; "item"; "user"]
  /\ map creates_if_absent (map fst creation_statements)
     = [ Some "category"; Some "suppliers"; Some "item"; Some "user";
         Some "transaction_records" ]
  /\ Forall (fun parent =>
               In parent
                 (MiniSqlite.table_names
                    (db (snd (init MiniSqlite.mini MiniSqlite.fresh)))))
       (Names.referenced_tables (map fst creation_statements)).
Proof.
  split; [exact MiniFacts.mini_schema_contract|].
  split; [vm_compute; reflexivity|].
  apply (init_resolves_its_references MiniSqlite.mini MiniSqlite.table_names
           MiniSqlite.fresh).
  - exact MiniFacts.mini_schema_contract.
  - vm_compute. reflexivity.
Defined.

(** ** The connection from open to close *)

Module StreamFacts.
Import Lifetime.

Lemma then_run {store A B : Type} (m : M store A) (k : M store B) (w : world store) :
  Sqlite.bind m (fun _ => k) w = k (snd (m w)).
Proof. unfold Sqlite.bind. now destruct (m w). Qed.

(** On a store that sets its error text, one statement of [init] does
    to the stream what [Database.exec_or_report] records as lines. *)
Lemma exec_or_report_with_texts {store : Type} (B : backend store)
  (sql what : string) (w : world store) :
  Lifetime.exec_or_report (with_texts B) sql what (of_world w)
  = of_world (snd (Database.exec_or_report B sql what w)).
Proof.
  rewrite InitFacts.exec_or_report_run.
  unfold Lifetime.exec_or_report, with_texts, of_world, report.
  cbn [handle err made snd db cerr calls].
  destruct (be_exec B (db w) sql) as [[rc msg] st']. cbn [fst snd].
  destruct (negb (Z.eqb rc SQLITE_OK)); [|now rewrite app_nil_r].
  reflexivity.
Qed.

(** So [Database.init] is [Lifetime.init] on such a store. *)
Lemma init_with_texts {store : Type} (B : backend store) (w : world store) :
  Lifetime.init (with_texts B) (of_world w) = of_world (snd (Database.init B w)).
Proof.
  unfold Lifetime.init, Database.init. cbv zeta.
  rewrite !then_run, !exec_or_report_with_texts. reflexivity.
Qed.

End StreamFacts.

(** X10.  Construction keeps the handle [sqlite3_open] left, also when
    the open failed, and a failed open leaves one line on [std::cerr] --
    the message directly followed by the error text, no separator.
    [getDBConnection] hands out that handle.  When the handle of a failed
    open answers every [sqlite3_exec] with [SQLITE_MISUSE] and no error
    text, [init] still makes its six calls on it, but the first report
    streams a null pointer: [std::cerr] is left with the unterminated
    text [Error enabling foreign keys: ] and takes no further output, so
    none of the five other failures is written.  The destructor closes
    the handle. *)
Theorem failed_open_silences_the_log {store : Type}
  (O : Lifetime.connector store) (exec : Lifetime.exec_with store)
  (errmsg : store -> string) (dbName : string) (log : list string) :
  let opened := Lifetime.co_open O dbName in
  let p0 := Lifetime.Database_ctor O errmsg dbName (Lifetime.settled log) in
  let p1 := Lifetime.init exec p0 in
  fst opened <> 0%Z ->
  (forall sql, exec (snd opened) sql = (Lifetime.SQLITE_MISUSE, None, snd opened)) ->
  Lifetime.getDBConnection p0 = snd opened
  /\ Lifetime.err p0
     = Lifetime.settled
         (log ++ [("Can't open database" ++ errmsg (snd opened))%string])
  /\ Lifetime.made p1
     = [ Call_exec foreignKeySupport; Call_exec categoryTableQuery;
         Call_exec supplierTableQuery; Call_exec itemTableQuery;
         Call_exec userTableQuery; Call_exec transactionTableQuery ]
  /\ Lifetime.err p1
     = {| Lifetime.os_lines :=
            (log ++ [("Can't open database" ++ errmsg (snd opened))%string])%list;
          Lifetime.os_pending := "Error enabling foreign keys: ";
          Lifetime.os_good := false |}
  /\ Lifetime.getDBConnection p1 = snd opened
  /\ Lifetime.Database_dtor O p1 = Lifetime.co_close O (snd opened).
Proof.
  cbv zeta. unfold Lifetime.Database_ctor, Lifetime.Database_dtor,
    Lifetime.getDBConnection.
  destruct (Lifetime.co_open O dbName) as [rc h]. cbn [fst snd].
  intros Hrc Hexec. apply Z.eqb_neq in Hrc. rewrite Hrc. cbn [negb].
  unfold Lifetime.init, Lifetime.exec_or_report. cbv zeta.
  cbn [Lifetime.handle Lifetime.err Lifetime.made].
  repeat (rewrite Hexec; cbn [Lifetime.handle Lifetime.err Lifetime.made]).
  repeat split.
Qed.

Lemma failed_open_silences_the_log_witness :
  fst (Lifetime.co_open Lifetime.unopenable "inventory.db") <> 0%Z
  /\ (forall sql,
        Lifetime.misused (snd (Lifetime.co_open Lifetime.unopenable "inventory.db")) sql
        = (Lifetime.SQLITE_MISUSE, None,
           snd (Lifetime.co_open Lifetime.unopenable "inventory.db")))
  /\ Lifetime.err
       (Lifetime.init Lifetime.misused
          (Lifetime.Database_ctor Lifetime.unopenable
             (fun _ => "unable to open database file") "inventory.db"
             (Lifetime.settled [])))
     = {| Lifetime.os_lines := ["Can't open databaseunable to open database file"];
          Lifetime.os_pending := "Error enabling foreign keys: ";
          Lifetime.os_good := false |}.
Proof.
  split; [discriminate|]. split; [reflexivity|].
  exact (proj1 (proj2 (proj2 (proj2
           (failed_open_silences_the_log Lifetime.unopenable Lifetime.misused
              (fun _ => "unable to open database file") "inventory.db" []
              ltac:(discriminate) ltac:(reflexivity)))))).
Defined.

(** ** Who owns the text that was bound *)

Module DestructorFacts.
Import Names.

Lemma text_destructors_app (a b : list api_call) :
  text_destructors (a ++ b) = (text_destructors a ++ text_destructors b)%list.
Proof. unfold text_destructors. apply flat_map_app. Qed.

Lemma bind_calls_destructors {T : Type} (d : destructor) (data : T)
  (fm : field_mapping T) (first : Z) :
  text_destructors (bind_calls d data fm first)
  = repeat d (List.length (text_entries data fm)).
Proof.
  revert first. induction fm as [|[c g] fm IH]; intros first;
    cbn [bind_calls text_entries filter snd]; [reflexivity|].
  unfold text_destructors in *. cbn [flat_map]. rewrite IH.
  destruct (g data); reflexivity.
Qed.

End DestructorFacts.

(** X11.  Every text value [insert] binds is handed over with
    [SQLITE_TRANSIENT], so that SQLite copies it; every text value
    [update] binds is handed over with [SQLITE_STATIC], so that SQLite
    keeps the pointer it was given -- one such binding per entry whose
    getter extracts text, in both. *)
Theorem update_binds_text_without_copy {store T : Type} (B : backend store)
  (tableName : string) (id : Z) (data : T) (fm : field_mapping T)
  (w : world store) :
  exists isql usql ri ru,
    insert_sql tableName fm = Some isql
    /\ update_sql tableName fm = Some usql
    /\ insert B tableName data fm w = Some ri
    /\ update B tableName id data fm w = Some ru
    /\ Names.text_destructors (Names.added w (snd ri))
       = (if Z.eqb (fst (be_prepare B (db w) isql)) SQLITE_OK
          then repeat SQLITE_TRANSIENT (List.length (Names.text_entries data fm))
          else [])
    /\ Names.text_destructors (Names.added w (snd ru))
       = (if Z.eqb (fst (be_prepare B (db w) usql)) SQLITE_OK
          then repeat SQLITE_STATIC (List.length (Names.text_entries data fm))
          else []).
Proof.
  destruct (insert_sql tableName fm) as [isql|] eqn:Ei;
    [|exfalso; exact (StatementFacts.insert_sql_defined tableName fm Ei)].
  destruct (update_sql tableName fm) as [usql|] eqn:Eu;
    [|exfalso; exact (StatementFacts.update_sql_defined tableName fm Eu)].
  exists isql, usql. unfold insert, update. rewrite Ei, Eu.
  eexists. eexists. do 4 (split; [reflexivity|]). split.
  - destruct (Z.eqb (fst (be_prepare B (db w) isql)) SQLITE_OK) eqn:Hp.
    + rewrite (RunFacts.insert_with_prepared B isql data fm w Hp). cbv zeta.
      destruct (Z.eqb (fst (be_step B _ _)) SQLITE_DONE); cbn [snd];
        (erewrite LifetimeFacts.added_after; [|cbn [calls]; reflexivity]);
        change (Call_prepare_v2 isql :: ?l) with ([Call_prepare_v2 isql] ++ l)%list;
        rewrite !DestructorFacts.text_destructors_app,
          DestructorFacts.bind_calls_destructors; cbn; rewrite ?app_nil_r;
        reflexivity.
    + rewrite (LifetimeFacts.added_after w _ [Call_prepare_v2 isql]);
        [reflexivity|].
      now rewrite (RunFacts.insert_with_prepare_failed B isql data fm w Hp).
  - destruct (Z.eqb (fst (be_prepare B (db w) usql)) SQLITE_OK) eqn:Hp.
    + rewrite (RunFacts.update_with_prepared B usql id data fm w Hp). cbv zeta.
      destruct (Z.eqb (fst (be_step B _ _)) SQLITE_DONE); cbn [snd];
        (erewrite LifetimeFacts.added_after;
         [|cbn [calls]; rewrite <- !app_assoc; reflexivity]);
        change (Call_prepare_v2 usql :: ?l) with ([Call_prepare_v2 usql] ++ l)%list;
        rewrite !DestructorFacts.text_destructors_app,
          DestructorFacts.bind_calls_destructors; cbn; rewrite ?app_nil_r;
        reflexivity.
    + rewrite (LifetimeFacts.added_after w _ [Call_prepare_v2 usql]);
        [reflexivity|].
      now rewrite (RunFacts.update_with_prepare_failed B usql id data fm w Hp).
Qed.
